(** * devspace: the sync decision engine and its callers

    A shallow embedding of
    - [sync/evaluater.go]: the four decisions [shouldRemoveRemote],
      [shouldUpload], [shouldDownload] and [shouldRemoveLocal];
    - [cmd/dev.go]: [startServices], the caller that starts and stops the
      sync sessions;
    - [pkg/devspace/kubectl/exec.go]: [ExecBuffered];
    - [pkg/devspace/config/configutil/get.go]: [validate], [GetSelector],
      [askQuestions], [GetDefaultNamespace] and [GetConfigFromPath];
    - [cmd/dev.go]: [GetPaths] and [loadConfig].

    Go's [int64] fields are integers in [Z]; the decisions only compare
    them, so no wrap-around arises.  A Go pointer that may be [nil] is an
    [option]; a Go [map[string]*T] is a [gmap string T] whose missing keys
    read as [nil]. *)

From Stdlib Require Import ZArith Bool List.
From Stdlib Require Import Ascii DecimalString.
From stdpp Require Import base option gmap strings list.

Local Open Scope string_scope.
Local Open Scope list_scope.
Local Open Scope Z_scope.

(** ** Package [os]: what the decisions use of a file's stat *)

Module os.

(** [os.FileMode] is a [uint32] bit set. *)
Definition FileMode : Type := Z.

Definition ModeDir : FileMode := Z.shiftl 1 31.
Definition ModeSymlink : FileMode := Z.shiftl 1 27.

(** The methods of the [os.FileInfo] interface that the sync package
    calls: [Size()], [Mode()] and [ModTime().Unix()]. *)
Record FileInfo : Type := mkFileInfo {
  Size : Z;
  Mode : FileMode;
  ModTimeUnix : Z
}.

(** [IsDir()] abbreviates [Mode().IsDir()]. *)
Definition IsDir (fi : FileInfo) : bool :=
  negb (Z.land (Mode fi) ModeDir =? 0).

(** The errors of [os.Stat], as far as [os.IsNotExist] tells them
    apart. *)
Inductive Error : Type :=
| ErrNotExist
| ErrOther (msg : string).

Definition IsNotExist (e : Error) : bool :=
  match e with
  | ErrNotExist => true
  | ErrOther _ => false
  end.

(** The local file system as [os.Stat] sees it: the two results of the
    call, either of which may be [nil]. *)
Definition StatFn : Type := string -> option FileInfo * option Error.

End os.

(** ** Package [remote]: a change reported by the remote side *)

Module remote.

Record Change : Type := mkChange {
  Path : string;
  MtimeUnix : Z;
  Size : Z;
  IsDir : bool
}.

End remote.

(** ** Package [sync] *)

Module Sync.

(** An entry of the file index. *)
Record FileInformation : Type := mkFileInformation {
  Name : string;
  Size : Z;
  Mtime : Z;
  IsDirectory : bool;
  IsSymbolicLink : bool
}.

(** The ignore matchers are consulted through one method only. *)
Record IgnoreMatcher : Type := mkIgnoreMatcher {
  MatchesPath : string -> bool
}.

Record FileIndex : Type := mkFileIndex {
  fileMap : gmap string FileInformation
}.

Record Sync : Type := mkSync {
  ignoreMatcher : option IgnoreMatcher;
  uploadIgnoreMatcher : option IgnoreMatcher;
  fileIndex : FileIndex
}.

(** [s.fileIndex.fileMap[path]], [None] standing for [nil]. *)
Definition tracked (s : Sync) (path : string) : option FileInformation :=
  fileMap (fileIndex s) !! path.

(** [if m != nil { if m.MatchesPath(path) { ... } }] *)
Definition matched (m : option IgnoreMatcher) (path : string) : bool :=
  match m with
  | Some m => MatchesPath m path
  | None => false
  end.

(** What [s.log.Infof] is called with. *)
Inductive Diagnostic : Type :=
| SkipChangeNil (absFilepath : string)
| SkipStatError (absFilepath : string) (err : os.Error)
| SkipUnequalIsDir (absFilepath : string)
| SkipModTimeGreater (absFilepath : string) (statMtime snapMtime : Z)
| SkipMtimeSizeUnequal (absFilepath : string)
    (snapMtime mapMtime snapSize mapSize : Z).

Definition shouldRemoveRemote (relativePath : string) (s : Sync) : bool :=
  if matched (ignoreMatcher s) relativePath then false
  else if matched (uploadIgnoreMatcher s) relativePath then false
  else match tracked s relativePath with
       | None => false
       | Some rec => if IsSymbolicLink rec then false else true
       end.

Definition shouldUpload (relativePath : string) (stat : option os.FileInfo)
    (s : Sync) (isInitial : bool) : bool :=
  match stat with
  | None => false
  | Some stat =>
    if matched (ignoreMatcher s) relativePath then false
    else if negb (Z.land (os.Mode stat) os.ModeSymlink =? 0) then false
    else
      match tracked s relativePath with
      | Some rec =>
        if os.IsDir stat then false
        else if IsSymbolicLink rec then false
        else if isInitial then
          if os.ModTimeUnix stat <=? Mtime rec then false else true
        else
          if (os.ModTimeUnix stat =? Mtime rec) && (os.Size stat =? Size rec)
          then false else true
      | None => true
      end
  end.

Definition shouldDownload (change : remote.Change) (s : Sync) : bool :=
  match tracked s (remote.Path change) with
  | Some rec =>
    if negb (remote.IsDir change) then
      if remote.MtimeUnix change >? Mtime rec then true
      else if (remote.MtimeUnix change =? Mtime rec)
              && negb (remote.Size change =? Size rec) then true
      else false
    else false
  | None => true
  end.

(** [shouldRemoveLocal] with the diagnostics it logs on the way. *)
Definition shouldRemoveLocalLog (Stat : os.StatFn) (absFilepath : string)
    (fileInformation : option FileInformation) (s : Sync)
    : bool * list Diagnostic :=
  match fileInformation with
  | None => (false, [SkipChangeNil absFilepath])
  | Some fileInformation =>
    match Stat absFilepath with
    | (_, Some err) =>
      if negb (os.IsNotExist err)
      then (false, [SkipStatError absFilepath err])
      else (false, [])
    | (stat, None) =>
      match stat, tracked s (Name fileInformation) with
      | Some stat, Some rec =>
        if negb (eqb (os.IsDir stat) (IsDirectory rec))
           || negb (eqb (os.IsDir stat) (IsDirectory fileInformation))
        then (false, [SkipUnequalIsDir absFilepath])
        else if negb (IsDirectory fileInformation) then
          if (Mtime fileInformation =? Mtime rec)
             && (Size fileInformation =? Size rec)
          then
            if os.ModTimeUnix stat <=? Mtime fileInformation
            then (true, [])
            else (false, [SkipModTimeGreater absFilepath
                            (os.ModTimeUnix stat) (Mtime fileInformation)])
          else (false, [SkipMtimeSizeUnequal absFilepath
                          (Mtime fileInformation) (Mtime rec)
                          (Size fileInformation) (Size rec)])
        else (true, [])
      | _, _ => (false, [])
      end
    end
  end.

Definition shouldRemoveLocal (Stat : os.StatFn) (absFilepath : string)
    (fileInformation : option FileInformation) (s : Sync) : bool :=
  fst (shouldRemoveLocalLog Stat absFilepath fileInformation s).

(** The same session with another upload-exclusion matcher. *)
Definition setUploadIgnoreMatcher (m : option IgnoreMatcher) (s : Sync)
    : Sync :=
  {| ignoreMatcher := ignoreMatcher s;
     uploadIgnoreMatcher := m;
     fileIndex := fileIndex s |}.

(** *** The index commit of the pipelines *)

(** Modelled from the spec: the upstream and downstream pipelines
    ([sync/upstream.go], [sync/downstream.go]) are not among the sources.
    The spec (4.5, 3) has a finished transfer commit a new FileRecord for
    its path into the index, and a deletion that was decided safe and was
    executed remove the path's entry; nothing else writes the index. *)
Definition commit (path : string) (rec : FileInformation) (s : Sync)
    : Sync :=
  {| ignoreMatcher := ignoreMatcher s;
     uploadIgnoreMatcher := uploadIgnoreMatcher s;
     fileIndex := {| fileMap := <[path := rec]> (fileMap (fileIndex s)) |} |}.

(** Modelled from the spec: the removal of an entry after a deletion that
    was decided safe and was executed (spec 3); the code that does it is in
    the same missing pipelines. *)
Definition forget (path : string) (s : Sync) : Sync :=
  {| ignoreMatcher := ignoreMatcher s;
     uploadIgnoreMatcher := uploadIgnoreMatcher s;
     fileIndex := {| fileMap := delete path (fileMap (fileIndex s)) |} |}.

(** The record a transfer commits: mtime and size as observed on the
    transferred content. *)
Definition recordOf (path : string) (stat : os.FileInfo) : FileInformation :=
  {| Name := path;
     Size := os.Size stat;
     Mtime := os.ModTimeUnix stat;
     IsDirectory := os.IsDir stat;
     IsSymbolicLink := false |}.

(** Modelled from the spec: what a pipeline does to one path, as the spec
    words it (4.5, 5, 7): a transfer is streamed in chunks and either
    completes and commits, or aborts without committing; a deletion is
    decided, and executed when decided safe. *)
Inductive PipelineEvent : Type :=
| TransferBegin (path : string)
| TransferChunk (path : string) (bytes : Z)
| TransferComplete (path : string) (observed : FileInformation)
| TransferAbort (path : string)
| Deletion (path : string) (decidedSafe : bool) (removeErr : option os.Error).

(** The session's state: the index, and the bytes received so far of the
    transfers in flight. *)
Record Session : Type := mkSession {
  sync : Sync;
  inflight : gmap string Z
}.

(** Modelled from the spec: the effect of one pipeline event on the
    session, the pipelines themselves missing from the sources.  Only a
    completed transfer commits, only a safe deletion whose removal did not
    fail forgets (spec 3, 4.5, 7). *)
Definition step (st : Session) (ev : PipelineEvent) : Session :=
  match ev with
  | TransferBegin p =>
    {| sync := sync st; inflight := <[p := 0]> (inflight st) |}
  | TransferChunk p n =>
    {| sync := sync st;
       inflight := match inflight st !! p with
                   | Some got => <[p := got + n]> (inflight st)
                   | None => inflight st
                   end |}
  | TransferComplete p observed =>
    {| sync := commit p observed (sync st);
       inflight := delete p (inflight st) |}
  | TransferAbort p =>
    {| sync := sync st; inflight := delete p (inflight st) |}
  | Deletion p decidedSafe removeErr =>
    match decidedSafe, removeErr with
    | true, None => {| sync := forget p (sync st); inflight := inflight st |}
    | _, _ => st
    end
  end.

Definition run (st : Session) (evs : list PipelineEvent) : Session :=
  fold_left step evs st.

(** The events that write the index entry of [p]. *)
Definition writes (p : string) (ev : PipelineEvent) : bool :=
  match ev with
  | TransferComplete q _ => bool_decide (q = p)
  | Deletion q true None => bool_decide (q = p)
  | _ => false
  end.

End Sync.

(** ** Package [cmd]: [startServices] of [devspace dev] *)

Module Dev.

(** Go [error] values: the command's own [reloadError] and the ones made
    from a message. *)
Inductive error : Type :=
| reloadError
| errorString (msg : string).

Definition Error (e : error) : string :=
  match e with
  | reloadError => ""
  | errorString msg => msg
  end.

(** [fmt.Errorf(prefix + "%v", err)] *)
Definition Errorf (prefix : string) (err : error) : error :=
  errorString (String.append prefix (Error err)).

(** The type assertion of [err] to a pointer to [reloadError]. *)
Definition isReloadError (e : error) : bool :=
  match e with
  | reloadError => true
  | errorString _ => false
  end.

Record DevCmd : Type := mkDevCmd {
  Portforwarding : bool;
  Sync : bool;
  SkipPipeline : bool;
  Terminal : bool;
  Selector : string;
  Container : string;
  LabelSelector : string;
  Namespace : string
}.

Record TerminalConfig : Type := mkTerminalConfig {
  Disabled : option bool
}.

Record DevConfig : Type := mkDevConfig {
  DevTerminal : option TerminalConfig
}.

Record Config : Type := mkConfig {
  Dev : option DevConfig
}.

(** [targetselector.CmdParameter] *)
Record CmdParameter : Type := mkCmdParameter {
  pSelector : option string;
  pContainerName : option string;
  pLabelSelector : option string;
  pNamespace : option string
}.

(** Handles of the started services, told apart by a number. *)
Record PortForwarder : Type := mkPortForwarder { pfId : nat }.
Record SyncConfig : Type := mkSyncConfig { syncId : nat }.

(** What the collaborators answer in one execution.  A Go call with the
    results [(v, err)] answers with both, as in Go; [exitChan] is the
    value received from the exit channel, [None] when nothing is ever
    sent on it. *)
Record World : Type := mkWorld {
  StartPortForwarding : list PortForwarder * option error;
  StartSync : list SyncConfig * option error;
  GetPaths : list string;
  watchNew : option error;
  StartTerminal : option error;
  StartAttach : option error;
  exitChan : option (option error)
}.

(** The calls [startServices] makes, in the order it makes them. *)
Inductive Event : Type :=
| CallStartPortForwarding
| CallClose (v : PortForwarder)
| CallStartSync
| CallStop (v : SyncConfig) (err : option error)
| CallWatchNew (paths : list string)
| CallWatcherStart
| CallWatcherStop
| CallStartTerminal (params : CmdParameter)
| CallStartAttach (params : CmdParameter)
| LogInfo (msg : string)
| LogDone (msg : string).

(** The function either returns its [error] result or waits on the exit
    channel for ever. *)
Inductive Outcome : Type :=
| Returned (err : option error)
| Blocked.

Definition Run : Type := list Event * Outcome.

(** [defer]: the deferred calls run when the body returns. *)
Definition deferring (deferred : list Event) (body : Run) : Run :=
  match body with
  | (tr, Returned err) => (tr ++ deferred, Returned err)
  | (tr, Blocked) => (tr, Blocked)
  end.

Definition after (done : list Event) (body : Run) : Run :=
  (done ++ fst body, snd body).

Definition nonEmpty (s : string) : option string :=
  if String.eqb s "" then None else Some s.

Definition terminalEnabled (config : Config) : bool :=
  match Dev config with
  | None => true
  | Some dev =>
    match DevTerminal dev with
    | None => true
    | Some t =>
      match Disabled t with
      | None => true
      | Some d => negb d
      end
    end
  end.

Definition startServices (cmd : DevCmd) (config : Config) (w : World)
    : Run :=
  let params :=
    {| pSelector := nonEmpty (Selector cmd);
       pContainerName := nonEmpty (Container cmd);
       pLabelSelector := nonEmpty (LabelSelector cmd);
       pNamespace := nonEmpty (Namespace cmd) |} in
  let waitExit : Run :=
    match exitChan w with
    | Some v => ([], Returned v)
    | None => ([], Blocked)
    end in
  let attach : Run :=
    if Terminal cmd && terminalEnabled config then
      ([CallStartTerminal params], Returned (StartTerminal w))
    else
      after [LogInfo "Will now try to print the logs of a running pod...";
             CallStartAttach params]
        match StartAttach w with
        | Some err =>
          if isReloadError err then ([], Returned (Some err))
          else
            after [LogInfo (String.append
                              "Couldn't print logs of running pod: "
                              (Error err));
                   LogDone "Services started (Press Ctrl+C to abort port-forwarding and sync)"]
              waitExit
        | None =>
          after [LogDone "Services started (Press Ctrl+C to abort port-forwarding and sync)"]
            waitExit
        end in
  let watch : Run :=
    if negb (SkipPipeline cmd) && (0 <? length (GetPaths w))%nat then
      after [CallWatchNew (GetPaths w)]
        match watchNew w with
        | Some err => ([], Returned (Some err))
        | None => after [CallWatcherStart] (deferring [CallWatcherStop] attach)
        end
    else attach in
  let startSync : Run :=
    if Sync cmd then
      after [CallStartSync]
        match StartSync w with
        | (_, Some err) =>
          ([], Returned (Some (Errorf "Unable to start sync: " err)))
        | (syncConfigs, None) =>
          deferring (map (fun v => CallStop v None) syncConfigs) watch
        end
    else watch in
  if Portforwarding cmd then
    after [CallStartPortForwarding]
      match StartPortForwarding w with
      | (_, Some err) =>
        ([], Returned (Some (Errorf "Unable to start portforwarding: " err)))
      | (portForwarder, None) =>
        deferring (map CallClose portForwarder) startSync
      end
  else startSync.

(** Whether [startServices] gets as far as [services.StartSync]. *)
Definition reachesSync (cmd : DevCmd) (w : World) : bool :=
  Sync cmd
  && (negb (Portforwarding cmd)
      || bool_decide (snd (StartPortForwarding w) = None)).

Definition isStop (ev : Event) : bool :=
  match ev with
  | CallStop _ _ => true
  | _ => false
  end.

(** A run that calls [Stop] on no session. *)
Definition quiet (r : Run) : bool :=
  forallb (fun ev => negb (isStop ev)) (fst r).

Definition returns (r : Run) : bool :=
  match snd r with
  | Returned _ => true
  | Blocked => false
  end.

End Dev.

(** ** Package [kubectl]: [ExecBuffered] *)

Module Kubectl.

Abbreviation bytes := (list Byte.byte).

Inductive error : Type :=
| CodeExitError (code : Z)
| StreamError (msg : string)
| IOError (msg : string)
| ErrClosed
| Wrap (cause : error) (msg : string).

(** The type assertion of [err] to [kubectlExec.CodeExitError]. *)
Definition isCodeExitError (e : error) : bool :=
  match e with
  | CodeExitError _ => true
  | _ => false
  end.

(** An [os.File] value: the descriptor it owns and the name it was opened
    with. *)
Record File : Type := mkFile {
  fd : nat;
  Name : string
}.

(** The mutable part of an open file. *)
Record Descriptor : Type := mkDescriptor {
  path : string;
  offset : nat;
  closed : bool
}.

Inductive Op : Type :=
| OpTempFile (name : string)
| OpExecStream (stdout stderr : File)
| OpClose (f : File)
| OpOpen (name : string)
| OpReadFrom (f : File) (got : bytes)
| OpRemove (name : string).

(** The file system, the table of open files and the calls made so far. *)
Record OS : Type := mkOS {
  files : gmap string bytes;
  table : gmap nat Descriptor;
  nextFd : nat;
  oplog : list Op
}.

Definition setFiles (fs : gmap string bytes) (s : OS) : OS :=
  {| files := fs; table := table s; nextFd := nextFd s; oplog := oplog s |}.

Definition setDescriptor (n : nat) (d : Descriptor) (s : OS) : OS :=
  {| files := files s; table := <[n := d]> (table s);
     nextFd := nextFd s; oplog := oplog s |}.

(** A state monad over [OS]; a Go result [(v, err)] is a sum. *)
Definition M (A : Type) : Type := OS -> A * OS.

Definition ret {A : Type} (a : A) : M A := fun s => (a, s).

Definition bind {A B : Type} (m : M A) (k : A -> M B) : M B :=
  fun s => let (a, s') := m s in k a s'.

Definition get : M OS := fun s => (s, s).

Definition modify (f : OS -> OS) : M unit := fun s => (tt, f s).

Notation "'call' x <- m 'in' k" := (bind m (fun x => k))
  (at level 10, x name, m at level 100, k at level 200).
Notation "'exec' m 'in' k" := (bind m (fun _ => k))
  (at level 10, m at level 100, k at level 200).

Definition logOp (o : Op) : M unit :=
  modify (fun s => {| files := files s; table := table s;
                      nextFd := nextFd s; oplog := oplog s ++ [o] |}).

(** A fresh descriptor for [name], at offset 0. *)
Definition allocate (name : string) : M File :=
  call s <- get in
  exec modify (fun s =>
    {| files := files s;
       table := <[nextFd s := {| path := name; offset := 0%nat;
                                 closed := false |}]> (table s);
       nextFd := S (nextFd s); oplog := oplog s |}) in
  ret {| fd := nextFd s; Name := name |}.

(** [ioutil.TempFile("", "")]: the system picks the name ([pick]) or
    fails; the file is created empty and must not exist yet. *)
Definition TempFile (pick : string + error) : M (File + error) :=
  match pick with
  | inr err => ret (inr err)
  | inl name =>
    call s <- get in
    match files s !! name with
    | Some _ => ret (inr (IOError "file exists"))
    | None =>
      exec logOp (OpTempFile name) in
      exec modify (fun s => setFiles (<[name := []]> (files s)) s) in
      call f <- allocate name in
      ret (inl f)
    end
  end.

(** [f.Write(data)]: at the descriptor's offset, which moves on. *)
Definition Write (f : File) (data : bytes) : M (option error) :=
  call s <- get in
  match table s !! fd f with
  | Some d =>
    if closed d then ret (Some ErrClosed)
    else
      match files s !! path d with
      | Some old =>
        exec modify (fun s =>
          setFiles (<[path d := take (offset d) old ++ data
                        ++ drop (offset d + length data) old]> (files s)) s) in
        exec modify (setDescriptor (fd f)
               {| path := path d; offset := offset d + length data;
                  closed := false |}) in
        ret None
      | None => ret (Some (IOError "no such file"))
      end
  | None => ret (Some ErrClosed)
  end.

Definition Close (f : File) : M unit :=
  exec logOp (OpClose f) in
  call s <- get in
  match table s !! fd f with
  | Some d =>
    modify (setDescriptor (fd f)
              {| path := path d; offset := offset d; closed := true |})
  | None => ret tt
  end.

(** [os.Open(name)]; [fails] is a failure of the system's own. *)
Definition Open (fails : option error) (name : string) : M (File + error) :=
  exec logOp (OpOpen name) in
  match fails with
  | Some err => ret (inr err)
  | None =>
    call s <- get in
    match files s !! name with
    | None => ret (inr (IOError "no such file"))
    | Some _ => call f <- allocate name in ret (inl f)
    end
  end.

(** What a read of everything that is left of [f] gives, and where it
    leaves the descriptor: at the end of the file. *)
Definition readAll (fails : option error) (f : File)
    : M (bytes + error) :=
  match fails with
  | Some err => ret (inr err)
  | None =>
    call s <- get in
    match table s !! fd f with
    | Some d =>
      if closed d then ret (inr ErrClosed)
      else
        match files s !! path d with
        | Some content =>
          exec modify (setDescriptor (fd f)
                 {| path := path d; offset := length content;
                    closed := false |}) in
          ret (inl (drop (offset d) content))
        | None => ret (inl [])
        end
    | None => ret (inr ErrClosed)
    end
  end.

(** [buffer.ReadFrom(f)] on an empty buffer: the buffer holds what was
    read. *)
Definition ReadFrom (fails : option error) (f : File) : M (bytes + error) :=
  call r <- readAll fails f in
  exec logOp (OpReadFrom f (match r with inl got => got | inr _ => [] end)) in
  ret r.

Definition Remove (name : string) : M unit :=
  exec logOp (OpRemove name) in
  modify (fun s => setFiles (delete name (files s)) s).

(** [defer cleanup]: runs when the body has returned. *)
Definition deferring {A : Type} (cleanup : M unit) (body : M A) : M A :=
  call a <- body in
  exec cleanup in
  ret a.

(** What the system and the remote command answer in one execution. *)
Record World : Type := mkWorld {
  tempFile1 : string + error;
  tempFile2 : string + error;
  remoteStdout : bytes;
  remoteStderr : bytes;
  execResult : option error;
  openFails1 : option error;
  readFails1 : option error;
  openFails2 : option error;
  readFails2 : option error
}.

(** [ExecStream] with [tty = false]: the remote command's output streams
    are written to the two writers, and the command's error is the
    result. *)
Definition ExecStream (w : World) (stdout stderr : File)
    : M (option error) :=
  exec logOp (OpExecStream stdout stderr) in
  exec Write stdout (remoteStdout w) in
  exec Write stderr (remoteStderr w) in
  ret (execResult w).

Definition Result : Type := bytes * bytes * option error.

(** The part of [ExecBuffered] after the command has run. *)
Definition readBack (w : World) (stdoutOutput stderrOutput : File)
    (kubeExecError : option error) : M Result :=
  exec Close stdoutOutput in
  exec Close stderrOutput in
  call r <- Open (openFails1 w) (Name stdoutOutput) in
  match r with
  | inr err => ret ([], [], Some (Wrap err "open stdout file"))
  | inl stdoutOutput =>
    call r <- ReadFrom (readFails1 w) stdoutOutput in
    match r with
    | inr err => ret ([], [], Some err)
    | inl stdoutBuffer =>
      call r <- Open (openFails2 w) (Name stdoutOutput) in
      match r with
      | inr err => ret ([], [], Some (Wrap err "open stderr file"))
      | inl stderrOutput =>
        call r <- ReadFrom (readFails2 w) stdoutOutput in
        match r with
        | inr err => ret ([], [], Some err)
        | inl stderrBuffer =>
          ret (stdoutBuffer, stderrBuffer, kubeExecError)
        end
      end
    end
  end.

Definition ExecBuffered (w : World) : M Result :=
  call r <- TempFile (tempFile1 w) in
  match r with
  | inr err => ret ([], [], Some (Wrap err "create temp file"))
  | inl stdoutOutput =>
    deferring (Remove (Name stdoutOutput)) (
      call r <- TempFile (tempFile2 w) in
      match r with
      | inr err => ret ([], [], Some (Wrap err "create temp file"))
      | inl stderrOutput =>
        deferring (Remove (Name stderrOutput)) (
          call kubeExecError <- ExecStream w stdoutOutput stderrOutput in
          match kubeExecError with
          | Some err =>
            if negb (isCodeExitError err) then ret ([], [], Some err)
            else readBack w stdoutOutput stderrOutput kubeExecError
          | None => readBack w stdoutOutput stderrOutput kubeExecError
          end)
      end)
  end.

(** An empty system: no file, no open descriptor. *)
Definition boot : OS :=
  {| files := ∅; table := ∅; nextFd := 3%nat; oplog := [] |}.

(** The three results of [ExecBuffered]. *)
Definition stdoutOf (r : Result) : bytes := fst (fst r).
Definition stderrOf (r : Result) : bytes := snd (fst r).
Definition errorOf (r : Result) : option error := snd r.

(** From [s] to [s'] the log of calls grew by calls that satisfy [P]. *)
Definition grows (P : Op -> Prop) (s s' : OS) : Prop :=
  exists l, oplog s' = oplog s ++ l /\ Forall P l.

(** [m] only ever lets the log grow by calls that satisfy [P]. *)
Definition logsOnly {A : Type} (P : Op -> Prop) (m : M A) : Prop :=
  forall s, grows P s (snd (m s)).

(** The calls that open a file or read from one do so on the file that
    captured stdout, which is not the one that captured stderr. *)
Definition onStdoutCapture (w : World) (o : Op) : Prop :=
  match o with
  | OpOpen name => tempFile1 w = inl name /\ tempFile2 w <> inl name
  | OpReadFrom f _ =>
    tempFile1 w = inl (Name f) /\ tempFile2 w <> inl (Name f)
  | _ => True
  end.

End Kubectl.

(** ** Test data *)

Module Fixtures.
Import Sync.

(** A regular file of the given size and mtime. *)
Definition regular (size mtime : Z) : os.FileInfo :=
  {| os.Size := size; os.Mode := 420; os.ModTimeUnix := mtime |}.

Definition directory (mtime : Z) : os.FileInfo :=
  {| os.Size := 4096; os.Mode := Z.lor os.ModeDir 493;
     os.ModTimeUnix := mtime |}.

Definition fileRecord (name : string) (size mtime : Z) : FileInformation :=
  {| Name := name; Size := size; Mtime := mtime;
     IsDirectory := false; IsSymbolicLink := false |}.

Definition dirRecord (name : string) (mtime : Z) : FileInformation :=
  {| Name := name; Size := 4096; Mtime := mtime;
     IsDirectory := true; IsSymbolicLink := false |}.

(** A matcher for one exact path. *)
Definition only (p : string) : IgnoreMatcher :=
  {| MatchesPath := fun q => String.eqb p q |}.

Definition withIndex (m : gmap string FileInformation) : Sync :=
  {| ignoreMatcher := Some (only "node_modules");
     uploadIgnoreMatcher := Some (only "build.log");
     fileIndex := {| fileMap := m |} |}.

Definition emptySync : Sync := withIndex ∅.

Definition tracking (rec : FileInformation) : Sync :=
  withIndex {[ Name rec := rec ]}.

(** A local tree with one entry, at [/app/main.go]. *)
Definition diskWith (fi : os.FileInfo) : os.StatFn :=
  fun p => if String.eqb p "/app/main.go" then (Some fi, None)
           else (None, Some os.ErrNotExist).

Definition unreadable : os.StatFn :=
  fun _ => (None, Some (os.ErrOther "permission denied")).

End Fixtures.

Module DevFixtures.
Import Dev.

(** [devspace dev] with its defaults: port-forwarding, sync and terminal
    on, the pipeline not skipped. *)
Definition defaults : DevCmd :=
  {| Portforwarding := true; Sync := true; SkipPipeline := false;
     Terminal := true; Selector := ""; Container := "";
     LabelSelector := ""; Namespace := "" |}.

Definition noTerminal : DevCmd :=
  {| Portforwarding := true; Sync := true; SkipPipeline := false;
     Terminal := false; Selector := ""; Container := "";
     LabelSelector := ""; Namespace := "staging" |}.

Definition emptyConfig : Config := {| Dev := None |}.

(** Two sync sessions start, the terminal ends without error. *)
Definition allFine : World :=
  {| StartPortForwarding := ([ {| pfId := 0 |} ], None);
     StartSync := ([ {| syncId := 0 |}; {| syncId := 1 |} ], None);
     GetPaths := ["chart/**"];
     watchNew := None;
     StartTerminal := None;
     StartAttach := None;
     exitChan := Some (Some reloadError) |}.

(** Starting the sync fails, and the failing call still hands back a
    session. *)
Definition syncFails : World :=
  {| StartPortForwarding := ([ {| pfId := 0 |} ], None);
     StartSync := ([ {| syncId := 7 |} ],
                   Some (errorString "no running pod found"));
     GetPaths := [];
     watchNew := None;
     StartTerminal := None;
     StartAttach := None;
     exitChan := None |}.

End DevFixtures.

Module KubectlFixtures.
Import Kubectl.

(** The remote command prints "ok" on stdout and "no" on stderr, and
    exits with code 1. *)
Definition failingCommand : World :=
  {| tempFile1 := inl "/tmp/001";
     tempFile2 := inl "/tmp/002";
     remoteStdout := [Byte.x6f; Byte.x6b];
     remoteStderr := [Byte.x6e; Byte.x6f];
     execResult := Some (CodeExitError 1);
     openFails1 := None; readFails1 := None;
     openFails2 := None; readFails2 := None |}.

End KubectlFixtures.

(** ** Package [latest]: the config, as far as the code modelled here
    reads it *)

Module latest.

(** What is behind a pointer that the code only tests for nil. *)
Inductive Opaque : Type := opaque (id : nat).

(** A pointer field is an [option]; the entries of a list of pointers to
    structs are taken to be non-nil, the entries of a list of pointers to
    strings are [option]s. *)

Module SelectorConfig.
Record t : Type := mk {
  Name : option string;
  LabelSelector : option Opaque
}.
End SelectorConfig.

Module PortForwardingConfig.
Record t : Type := mk {
  Selector : option string;
  LabelSelector : option Opaque;
  PortMappings : option Opaque
}.
End PortForwardingConfig.

Module SyncConfig.
Record t : Type := mk {
  Selector : option string;
  LabelSelector : option Opaque
}.
End SyncConfig.

Module ImageOverrideConfig.
Record t : Type := mk {
  Name : option string
}.
End ImageOverrideConfig.

Module AutoReloadConfig.
Record t : Type := mk {
  Deployments : option (list (option string));
  Images : option (list (option string));
  Paths : option (list (option string))
}.
End AutoReloadConfig.

Module Terminal.
Record t : Type := mk {
  Disabled : option bool
}.
End Terminal.

Module DevConfig.
Record t : Type := mk {
  Selectors : option (list SelectorConfig.t);
  Ports : option (list PortForwardingConfig.t);
  Sync : option (list SyncConfig.t);
  OverrideImages : option (list ImageOverrideConfig.t);
  AutoReload : option AutoReloadConfig.t;
  Terminal : option Terminal.t
}.
End DevConfig.

Module HookConfig.
Record t : Type := mk {
  Command : option string
}.
End HookConfig.

Module CustomConfig.
Record t : Type := mk {
  Command : option string
}.
End CustomConfig.

Module BuildConfig.
Record t : Type := mk {
  Custom : option CustomConfig.t
}.
End BuildConfig.

Module ImageConfig.
Record t : Type := mk {
  Dockerfile : option string;
  Build : option BuildConfig.t
}.
End ImageConfig.

Module ChartConfig.
Record t : Type := mk {
  Name : option string
}.
End ChartConfig.

Module HelmConfig.
Record t : Type := mk {
  Chart : option ChartConfig.t
}.
End HelmConfig.

Module KubectlConfig.
Record t : Type := mk {
  Manifests : option (list (option string))
}.
End KubectlConfig.

Module DeploymentConfig.
Record t : Type := mk {
  Name : option string;
  Helm : option HelmConfig.t;
  Kubectl : option KubectlConfig.t;
  Component : option Opaque
}.
End DeploymentConfig.

Module Cluster.
Record t : Type := mk {
  Namespace : option string;
  KubeContext : option string
}.
End Cluster.

(** [Images] is a Go map: the list is the map in the order the [range]
    statement visits it, which Go leaves open. *)
Module Config.
Record t : Type := mk {
  Dev : option DevConfig.t;
  Hooks : option (list HookConfig.t);
  Images : option (list (string * ImageConfig.t));
  Deployments : option (list DeploymentConfig.t);
  Cluster : option Cluster.t
}.
End Config.

End latest.

(** ** Package [configutil] *)

Module Configutil.
Import latest.

(** A Go [error] made by [fmt.Errorf] or [errors.New]: its message. *)
Definition error : Type := string.

(** The result of code that may dereference a nil pointer. *)
Inductive Res (A : Type) : Type :=
| Ok (a : A)
| Panic.
Arguments Ok {A} a.
Arguments Panic {A}.

(** [%d] of a slice index. *)
Definition itoa (n : nat) : string :=
  NilZero.string_of_uint (Nat.to_uint n).

Definition isNil {A : Type} (p : option A) : bool :=
  match p with
  | None => true
  | Some _ => false
  end.

(** [for index, x := range l { if err := check index x; err != nil
    { return err } }], from [index] on. *)
Fixpoint rangeFrom {A : Type} (index : nat)
    (check : nat -> A -> option error) (l : list A) : option error :=
  match l with
  | [] => None
  | x :: l =>
    match check index x with
    | Some err => Some err
    | None => rangeFrom (S index) check l
    end
  end.

(** [if p != nil { for index, x := range *p { ... } }] *)
Definition rangePtr {A : Type} (check : nat -> A -> option error)
    (p : option (list A)) : option error :=
  match p with
  | Some l => rangeFrom 0 check l
  | None => None
  end.

(** The checks of a function in their order: the first error is the
    result. *)
Fixpoint firstError (checks : list (option error)) : option error :=
  match checks with
  | [] => None
  | Some err :: _ => Some err
  | None :: checks => firstError checks
  end.

Definition checkSelector (index : nat) (selectorConfig : SelectorConfig.t)
    : option error :=
  if isNil (SelectorConfig.Name selectorConfig)
  then Some ("Error in config: Unnamed selector at index " +:+ itoa index)
  else None.

Definition checkPort (index : nat) (port : PortForwardingConfig.t)
    : option error :=
  if isNil (PortForwardingConfig.Selector port)
     && isNil (PortForwardingConfig.LabelSelector port)
  then Some ("Error in config: selector and label selector are nil in port config at index "
             +:+ itoa index)
  else if isNil (PortForwardingConfig.PortMappings port)
  then Some ("Error in config: portMappings is empty in port config at index "
             +:+ itoa index)
  else None.

Definition checkSync (index : nat) (sync : SyncConfig.t) : option error :=
  if isNil (SyncConfig.Selector sync) && isNil (SyncConfig.LabelSelector sync)
  then Some ("Error in config: selector and label selector are nil in sync config at index "
             +:+ itoa index)
  else None.

Definition checkOverrideImage (index : nat)
    (overrideImageConfig : ImageOverrideConfig.t) : option error :=
  if isNil (ImageOverrideConfig.Name overrideImageConfig)
  then Some ("Error in config: Unnamed override image config at index "
             +:+ itoa index)
  else None.

Definition checkHook (index : nat) (hookConfig : HookConfig.t)
    : option error :=
  if isNil (HookConfig.Command hookConfig)
  then Some ("hooks[" +:+ itoa index +:+ "].command is required")
  else None.

(** [imageConf.Build != nil && imageConf.Build.Custom != nil
    && imageConf.Build.Custom.Command == nil] *)
Definition customWithoutCommand (imageConf : ImageConfig.t) : bool :=
  match ImageConfig.Build imageConf with
  | Some build =>
    match BuildConfig.Custom build with
    | Some custom => isNil (CustomConfig.Command custom)
    | None => false
    end
  | None => false
  end.

Definition checkImage (_ : nat) (entry : string * ImageConfig.t)
    : option error :=
  let (imageConfigName, imageConf) := entry in
  if customWithoutCommand imageConf
  then Some ("images." +:+ imageConfigName
             +:+ ".build.custom.command is required")
  else None.

(** [deployConfig.Helm != nil && (deployConfig.Helm.Chart == nil
    || deployConfig.Helm.Chart.Name == nil)] *)
Definition helmWithoutChartName (deployConfig : DeploymentConfig.t) : bool :=
  match DeploymentConfig.Helm deployConfig with
  | Some helm =>
    match HelmConfig.Chart helm with
    | Some chart => isNil (ChartConfig.Name chart)
    | None => true
    end
  | None => false
  end.

(** [deployConfig.Kubectl != nil && deployConfig.Kubectl.Manifests == nil] *)
Definition kubectlWithoutManifests (deployConfig : DeploymentConfig.t)
    : bool :=
  match DeploymentConfig.Kubectl deployConfig with
  | Some kubectl => isNil (KubectlConfig.Manifests kubectl)
  | None => false
  end.

Definition checkDeployment (index : nat) (deployConfig : DeploymentConfig.t)
    : option error :=
  match DeploymentConfig.Name deployConfig with
  | None => Some ("deployments[" +:+ itoa index +:+ "].name is required")
  | Some name =>
    if isNil (DeploymentConfig.Helm deployConfig)
       && isNil (DeploymentConfig.Kubectl deployConfig)
       && isNil (DeploymentConfig.Component deployConfig)
    then Some ("Please specify either component, helm or kubectl as deployment type in deployment "
               +:+ name)
    else if helmWithoutChartName deployConfig
    then Some ("deployments[" +:+ itoa index
               +:+ "].helm.chart and deployments[" +:+ itoa index
               +:+ "].helm.chart.name is required")
    else if kubectlWithoutManifests deployConfig
    then Some ("deployments[" +:+ itoa index
               +:+ "].kubectl.manifests is required")
    else None
  end.

Definition validate (config : Config.t) : option error :=
  firstError
    [ match Config.Dev config with
      | Some dev =>
        firstError
          [ rangePtr checkSelector (DevConfig.Selectors dev);
            rangePtr checkPort (DevConfig.Ports dev);
            rangePtr checkSync (DevConfig.Sync dev);
            rangePtr checkOverrideImage (DevConfig.OverrideImages dev) ]
      | None => None
      end;
      rangePtr checkHook (Config.Hooks config);
      rangePtr checkImage (Config.Images config);
      rangePtr checkDeployment (Config.Deployments config) ].

(** [GetSelector]: the loop over the selectors.  [*selector.Name] of a
    selector without a name is a nil dereference. *)
Fixpoint findSelector (selectors : list SelectorConfig.t)
    (selectorName : string) : Res (option SelectorConfig.t) :=
  match selectors with
  | [] => Ok None
  | selector :: selectors =>
    match SelectorConfig.Name selector with
    | None => Panic
    | Some name =>
      if String.eqb name selectorName then Ok (Some selector)
      else findSelector selectors selectorName
    end
  end.

(** [config.Dev.Selectors] of a config without [Dev] is a nil dereference
    too. *)
Definition GetSelector (config : Config.t) (selectorName : string)
    : Res (SelectorConfig.t + error) :=
  match Config.Dev config with
  | None => Panic
  | Some dev =>
    match DevConfig.Selectors dev with
    | Some selectors =>
      match findSelector selectors selectorName with
      | Panic => Panic
      | Ok (Some selector) => Ok (inl selector)
      | Ok None => Ok (inr ("Unable to find selector: " +:+ selectorName))
      end
    | None => Ok (inr ("Unable to find selector: " +:+ selectorName))
    end
  end.

(** *** [GetDefaultNamespace] *)

(** The kube config, as far as it is read. *)
Record Context : Type := mkContext {
  Namespace : string
}.

Record RawConfig : Type := mkRawConfig {
  CurrentContext : string;
  Contexts : gmap string Context
}.

(** [LoadRawConfig] is what [kubeconfig.LoadRawConfig()] answers, both
    results as in Go; [config] may be nil. *)
Definition GetDefaultNamespace (LoadRawConfig : RawConfig * option error)
    (config : option Config.t) : string * option error :=
  let cluster :=
    match config with
    | Some config => Config.Cluster config
    | None => None
    end in
  match cluster with
  | Some (Cluster.mk (Some namespace) _) => (namespace, None)
  | _ =>
    match LoadRawConfig with
    | (_, Some err) => ("", Some err)
    | (kubeConfig, None) =>
      let activeContext :=
        match cluster with
        | Some (Cluster.mk _ (Some kubeContext)) => kubeContext
        | _ => CurrentContext kubeConfig
        end in
      match Contexts kubeConfig !! activeContext with
      | Some context =>
        if negb (String.eqb (Namespace context) "")
        then (Namespace context, None)
        else ("default", None)
      | None => ("default", None)
      end
    end
  end.

(** *** [askQuestions] *)

(** [configs.Variable] ([Variable] alone is a keyword here). *)
Record ConfigVariable : Type := mkVariable {
  Name : option string;
  Question : Opaque
}.

(** What [askQuestions] gets from outside: the environment, the constant
    [VarEnvPrefix] and [strings.ToUpper], neither of which is among the
    sources, and the answer [AskQuestion] obtains for a variable. *)
Record Asking : Type := mkAsking {
  Getenv : string -> string;
  VarEnvPrefix : string;
  ToUpper : string -> string;
  AskQuestion : ConfigVariable -> string
}.

(** [os.Getenv(VarEnvPrefix+strings.ToUpper(name)) != ""] *)
Definition inEnv (a : Asking) (name : string) : bool :=
  negb (String.eqb (Getenv a (VarEnvPrefix a +:+ ToUpper a name)) "").

(** The loop of [askQuestions] from index [idx] on; [Vars] is the map
    [cache.Vars], which the loop updates in place, so that it is a result
    beside the error. *)
Fixpoint askFrom (idx : nat) (a : Asking) (Vars : gmap string string)
    (vars : list ConfigVariable) : gmap string string * option error :=
  match vars with
  | [] => (Vars, None)
  | variable :: vars =>
    match Name variable with
    | None =>
      (Vars, Some ("Name required for variable with index " +:+ itoa idx))
    | Some name =>
      if inEnv a name then askFrom (S idx) a Vars vars
      else
        match Vars !! name with
        | Some _ => askFrom (S idx) a Vars vars
        | None =>
          askFrom (S idx) a (<[name := AskQuestion a variable]> Vars) vars
        end
    end
  end.

Definition askQuestions (a : Asking) (Vars : gmap string string)
    (vars : list ConfigVariable) : gmap string string * option error :=
  askFrom 0 a Vars vars.

(** *** What [validate] accepts *)

Definition okPort (port : PortForwardingConfig.t) : bool :=
  negb (isNil (PortForwardingConfig.Selector port)
        && isNil (PortForwardingConfig.LabelSelector port))
  && negb (isNil (PortForwardingConfig.PortMappings port)).

Definition okSync (sync : SyncConfig.t) : bool :=
  negb (isNil (SyncConfig.Selector sync)
        && isNil (SyncConfig.LabelSelector sync)).

Definition okDeployment (deployConfig : DeploymentConfig.t) : bool :=
  negb (isNil (DeploymentConfig.Name deployConfig))
  && negb (isNil (DeploymentConfig.Helm deployConfig)
           && isNil (DeploymentConfig.Kubectl deployConfig)
           && isNil (DeploymentConfig.Component deployConfig))
  && negb (helmWithoutChartName deployConfig)
  && negb (kubectlWithoutManifests deployConfig).

(** [P] holds of every entry of the list behind [p], if there is one. *)
Definition every {A : Type} (P : A -> bool) (p : option (list A)) : Prop :=
  forall l, p = Some l -> Forall (fun x => P x = true) l.

Definition wellFormed (config : Config.t) : Prop :=
  (forall dev, Config.Dev config = Some dev ->
     every (fun s => negb (isNil (SelectorConfig.Name s)))
           (DevConfig.Selectors dev)
     /\ every okPort (DevConfig.Ports dev)
     /\ every okSync (DevConfig.Sync dev)
     /\ every (fun o => negb (isNil (ImageOverrideConfig.Name o)))
              (DevConfig.OverrideImages dev))
  /\ every (fun h => negb (isNil (HookConfig.Command h))) (Config.Hooks config)
  /\ every (fun e => negb (customWithoutCommand (snd e)))
           (Config.Images config)
  /\ every okDeployment (Config.Deployments config).

(** The selectors [GetSelector] passes over: those with a name other than
    the one looked for. *)
Definition passedOver (selectorName : string) (s : SelectorConfig.t) : Prop :=
  exists n, SelectorConfig.Name s = Some n /\ n <> selectorName.

(** The namespace the config itself names. *)
Definition configuredNamespace (config : option Config.t) : option string :=
  match config with
  | Some config =>
    match Config.Cluster config with
    | Some cluster => Cluster.Namespace cluster
    | None => None
    end
  | None => None
  end.

(** The same config with other images, or other deployments. *)
Definition withImages (images : option (list (string * ImageConfig.t)))
    (config : Config.t) : Config.t :=
  Config.mk (Config.Dev config) (Config.Hooks config) images
    (Config.Deployments config) (Config.Cluster config).

Definition withDeployments (deployments : option (list DeploymentConfig.t))
    (config : Config.t) : Config.t :=
  Config.mk (Config.Dev config) (Config.Hooks config) (Config.Images config)
    deployments (Config.Cluster config).

End Configutil.

Module ConfigFixtures.
Import latest Configutil.

Definition selector (name : option string) : SelectorConfig.t :=
  SelectorConfig.mk name (Some (opaque 0)).

Definition devWith (selectors : list SelectorConfig.t) : DevConfig.t :=
  DevConfig.mk (Some selectors) None None None None None.

Definition helmDeployment (name chart : string) : DeploymentConfig.t :=
  DeploymentConfig.mk (Some name)
    (Some (HelmConfig.mk (Some (ChartConfig.mk (Some chart))))) None None.

Definition untypedDeployment (name : string) : DeploymentConfig.t :=
  DeploymentConfig.mk (Some name) None None None.

Definition customImage (command : option string) : ImageConfig.t :=
  ImageConfig.mk None
    (Some (BuildConfig.mk (Some (CustomConfig.mk command)))).

Definition configOf (dev : option DevConfig.t)
    (images : option (list (string * ImageConfig.t)))
    (deployments : option (list DeploymentConfig.t)) : Config.t :=
  Config.mk dev None images deployments None.

(** One variable comes from the environment, the others are asked. *)
Definition asking : Asking :=
  {| Getenv := fun key => if String.eqb key "DEVSPACE_VAR_TOKEN"
                          then "s3cret" else "";
     VarEnvPrefix := "DEVSPACE_VAR_";
     ToUpper := fun name => if String.eqb name "token" then "TOKEN" else name;
     AskQuestion := fun variable =>
       match Name variable with
       | Some name => "answer for " +:+ name
       | None => ""
       end |}.

Definition var (name : option string) : ConfigVariable :=
  {| Name := name; Question := opaque 0 |}.

Definition kubeConfig : RawConfig :=
  {| CurrentContext := "minikube";
     Contexts := {[ "minikube" := {| Namespace := "" |};
                    "staging" := {| Namespace := "team-a" |} ]} |}.

End ConfigFixtures.

(** ** Package [cmd]: [GetPaths] *)

Module DevPaths.
Import latest Configutil.

Definition bindRes {A B : Type} (r : Res A) (k : A -> Res B) : Res B :=
  match r with
  | Ok a => k a
  | Panic => Panic
  end.

(** [*p] *)
Definition deref {A : Type} (p : option A) : Res A :=
  match p with
  | Some a => Ok a
  | None => Panic
  end.

(** [s[len(s)-1]], out of range on the empty string. *)
Fixpoint lastByte (s : string) : option Ascii.ascii :=
  match s with
  | EmptyString => None
  | String c EmptyString => Some c
  | String _ s => lastByte s
  end.

(** [for _, x := range l { ... paths = append(paths, ...) ... }] *)
Fixpoint rangeAppend {A : Type} (body : A -> list string -> Res (list string))
    (l : list A) (paths : list string) : Res (list string) :=
  match l with
  | [] => Ok paths
  | x :: l =>
    match body x paths with
    | Ok paths => rangeAppend body l paths
    | Panic => Panic
    end
  end.

(** The pattern for a chart directory: a "/" is added unless the path ends
    in one already. *)
Definition chartPattern (chartPath : string) : Res string :=
  match lastByte chartPath with
  | None => Panic
  | Some c =>
    Ok ((if Ascii.eqb c "/"%char then chartPath else chartPath +:+ "/")
        +:+ "**")
  end.

Definition appendManifests (deployConf : DeploymentConfig.t)
    (paths : list string) : Res (list string) :=
  match DeploymentConfig.Kubectl deployConf with
  | Some kubectl =>
    match KubectlConfig.Manifests kubectl with
    | Some manifests =>
      rangeAppend (fun manifestPath paths =>
                     bindRes (deref manifestPath) (fun p => Ok (paths ++ [p])))
        manifests paths
    | None => Ok paths
    end
  | None => Ok paths
  end.

(** The body of the loop over the deployments, for one name of
    [autoReload.deployments]. *)
Definition deploymentPaths (Stat : os.StatFn) (deployName : option string)
    (deployConf : DeploymentConfig.t) (paths : list string)
    : Res (list string) :=
  bindRes (deref deployName) (fun name =>
  bindRes (deref (DeploymentConfig.Name deployConf)) (fun confName =>
  if String.eqb name confName then
    match DeploymentConfig.Helm deployConf with
    | Some helm =>
      bindRes (deref (HelmConfig.Chart helm)) (fun chart =>
      match ChartConfig.Name chart with
      | Some chartName =>
        if isNil (snd (Stat chartName)) then
          bindRes (chartPattern chartName) (fun pattern =>
          Ok (paths ++ [pattern]))
        else Ok paths
      | None => appendManifests deployConf paths
      end)
    | None => appendManifests deployConf paths
    end
  else Ok paths)).

(** The body of the loop over the images, for one name of
    [autoReload.images]. *)
Definition imagePaths (imageName : option string)
    (entry : string * ImageConfig.t) (paths : list string)
    : Res (list string) :=
  let (imageConfName, imageConf) := entry in
  bindRes (deref imageName) (fun name =>
  if String.eqb name imageConfName then
    Ok (paths ++ [match ImageConfig.Dockerfile imageConf with
                  | Some dockerfile => dockerfile
                  | None => "./Dockerfile"
                  end])
  else Ok paths).

Definition GetPaths (Stat : os.StatFn) (config : Config.t)
    : Res (list string) :=
  match Config.Dev config with
  | Some dev =>
    match DevConfig.AutoReload dev with
    | Some autoReload =>
      bindRes
        match AutoReloadConfig.Deployments autoReload,
              Config.Deployments config with
        | Some names, Some deployments =>
          rangeAppend
            (fun deployName =>
               rangeAppend (deploymentPaths Stat deployName) deployments)
            names []
        | _, _ => Ok []
        end
        (fun paths =>
      bindRes
        match AutoReloadConfig.Images autoReload, Config.Images config with
        | Some names, Some images =>
          rangeAppend
            (fun imageName => rangeAppend (imagePaths imageName) images)
            names paths
        | _, _ => Ok paths
        end
        (fun paths =>
      match AutoReloadConfig.Paths autoReload with
      | Some explicit =>
        rangeAppend (fun path paths =>
                       bindRes (deref path) (fun p => Ok (paths ++ [p])))
          explicit paths
      | None => Ok paths
      end))
    | None => Ok []
    end
  | None => Ok []
  end.

(** No entry of the list behind [p] is nil. *)
Definition noNil (p : option (list (option string))) : Prop :=
  forall l, p = Some l -> Forall (fun e => e <> None) l.

(** The lists of strings that [GetPaths] reads hold no nil entry. *)
Definition noNilEntries (config : Config.t) : Prop :=
  (forall dev autoReload,
     Config.Dev config = Some dev ->
     DevConfig.AutoReload dev = Some autoReload ->
     noNil (AutoReloadConfig.Deployments autoReload)
     /\ noNil (AutoReloadConfig.Images autoReload)
     /\ noNil (AutoReloadConfig.Paths autoReload))
  /\ (forall deployments,
        Config.Deployments config = Some deployments ->
        Forall (fun d => forall kubectl,
                  DeploymentConfig.Kubectl d = Some kubectl ->
                  noNil (KubectlConfig.Manifests kubectl))
               deployments).

End DevPaths.

Module PathsFixtures.
Import latest Configutil DevPaths.

Definition kubectlDeployment (name : string) (manifests : list string)
    : DeploymentConfig.t :=
  DeploymentConfig.mk (Some name) None
    (Some (KubectlConfig.mk (Some (map Some manifests)))) None.

Definition autoReload (deployments images paths : list string)
    : DevConfig.t :=
  DevConfig.mk None None None None
    (Some (AutoReloadConfig.mk (Some (map Some deployments))
             (Some (map Some images)) (Some (map Some paths))))
    None.

(** A project with a chart directory, a kubectl deployment and two
    images. *)
Definition project : Config.t :=
  Config.mk
    (Some (autoReload ["db"; "api"; "typo"] ["web"; "worker"]
             ["config/**"; "Makefile"]))
    None
    (Some [("web", ImageConfig.mk None None);
           ("worker", ImageConfig.mk (Some "worker/Dockerfile") None)])
    (Some [DeploymentConfig.mk (Some "db")
             (Some (HelmConfig.mk (Some (ChartConfig.mk (Some "chart")))))
             None None;
           kubectlDeployment "api" ["kube/api.yaml"; "kube/svc.yaml"]])
    None.

(** Only the chart directory exists. *)
Definition chartOnDisk : os.StatFn :=
  fun p => if String.eqb p "chart"
           then (Some {| os.Size := 4096; os.Mode := os.ModeDir;
                         os.ModTimeUnix := 0 |}, None)
           else (None, Some os.ErrNotExist).

End PathsFixtures.

(** ** [GetConfigFromPath] and [loadConfig] *)

Module ConfigLoad.
Import latest Configutil.

(** [GetConfigFromPath]: [loaded] is what [loadBaseConfigFromPath] answers
    (its config and its error; the config definition is not used).
    [validate] of a nil config dereferences it. *)
Definition GetConfigFromPath (loaded : option Config.t * option error)
    (basePath : string) : Res (option Config.t * option error) :=
  match loaded with
  | (_, Some err) => Ok (None, Some err)
  | (None, None) => Panic
  | (Some config, None) =>
    match validate config with
    | Some err =>
      Ok (None, Some ("Error validating config in " +:+ basePath +:+ ": "
                      +:+ err))
    | None => Ok (Some config, None)
    end
  end.

(** How a function of the command ends: with its result, in [log.Fatal],
    which exits, or in a nil dereference. *)
Inductive Exit (A : Type) : Type :=
| Done (a : A)
| Fatal (err : error)
| Panicked.
Arguments Done {A} a.
Arguments Fatal {A} err.
Arguments Panicked {A}.

(** [config.Cluster = &v1.Cluster{Namespace: &cmd.Namespace,
    KubeContext: config.Cluster.KubeContext}] *)
Definition setNamespace (namespace : string) (config : Config.t)
    : option Config.t :=
  match Config.Cluster config with
  | Some cluster =>
    Some (Config.mk (Config.Dev config) (Config.Hooks config)
            (Config.Images config) (Config.Deployments config)
            (Some (Cluster.mk (Some namespace) (Cluster.KubeContext cluster))))
  | None => None
  end.

(** [loadConfig] of the dev command; [saved] is the error of
    [generated.SaveConfig]. *)
Definition loadConfig (cmd : Dev.DevCmd)
    (loaded : option Config.t * option error) (saved : option error)
    : Exit (option Config.t) :=
  match GetConfigFromPath loaded "." with
  | Panic => Panicked
  | Ok (_, Some err) => Fatal err
  | Ok (config, None) =>
    let save (config : option Config.t) : Exit (option Config.t) :=
      match saved with
      | Some err => Fatal ("Couldn't save generated config: " +:+ err)
      | None => Done config
      end in
    if negb (String.eqb (Dev.Namespace cmd) "") then
      match config with
      | Some config =>
        match setNamespace (Dev.Namespace cmd) config with
        | Some config => save (Some config)
        | None => Panicked
        end
      | None => Panicked
      end
    else save config
  end.

End ConfigLoad.

(** ** [startServices] by stages *)

Module DevTrace.
Import Dev.

(** [return <-exitChan] *)
Definition waitExit (w : World) : Run :=
  match exitChan w with
  | Some v => ([], Returned v)
  | None => ([], Blocked)
  end.

(** The last part of [startServices]: the terminal, or the attach and the
    wait on the exit channel. *)
Definition attachStage (cmd : DevCmd) (config : Config) (w : World) : Run :=
  let params :=
    {| pSelector := nonEmpty (Selector cmd);
       pContainerName := nonEmpty (Container cmd);
       pLabelSelector := nonEmpty (LabelSelector cmd);
       pNamespace := nonEmpty (Namespace cmd) |} in
  if Terminal cmd && terminalEnabled config then
    ([CallStartTerminal params], Returned (StartTerminal w))
  else
    after [LogInfo "Will now try to print the logs of a running pod...";
           CallStartAttach params]
      match StartAttach w with
      | Some err =>
        if isReloadError err then ([], Returned (Some err))
        else
          after [LogInfo (String.append
                            "Couldn't print logs of running pod: "
                            (Error err));
                 LogDone "Services started (Press Ctrl+C to abort port-forwarding and sync)"]
            (waitExit w)
      | None =>
        after [LogDone "Services started (Press Ctrl+C to abort port-forwarding and sync)"]
          (waitExit w)
      end.

(** The auto-reload watcher around the rest. *)
Definition watchStage (cmd : DevCmd) (w : World) (rest : Run) : Run :=
  if negb (SkipPipeline cmd) && (0 <? length (GetPaths w))%nat then
    after [CallWatchNew (GetPaths w)]
      match watchNew w with
      | Some err => ([], Returned (Some err))
      | None => after [CallWatcherStart] (deferring [CallWatcherStop] rest)
      end
  else rest.

(** The sync sessions around the rest. *)
Definition syncStage (cmd : DevCmd) (w : World) (rest : Run) : Run :=
  if Sync cmd then
    after [CallStartSync]
      match StartSync w with
      | (_, Some err) =>
        ([], Returned (Some (Errorf "Unable to start sync: " err)))
      | (syncConfigs, None) =>
        deferring (map (fun v => CallStop v None) syncConfigs) rest
      end
  else rest.

(** The port forwarders around the rest. *)
Definition pfStage (cmd : DevCmd) (w : World) (rest : Run) : Run :=
  if Portforwarding cmd then
    after [CallStartPortForwarding]
      match StartPortForwarding w with
      | (_, Some err) =>
        ([], Returned (Some (Errorf "Unable to start portforwarding: " err)))
      | (portForwarder, None) =>
        deferring (map CallClose portForwarder) rest
      end
  else rest.

(** Which service a call belongs to: 0 for the terminal, the attach and
    the log, 1 for the watcher, 2 for the sync, 3 for the port
    forwarding. *)
Definition layer (ev : Event) : nat :=
  match ev with
  | CallStartTerminal _ | CallStartAttach _ | LogInfo _ | LogDone _ => 0
  | CallWatchNew _ | CallWatcherStart | CallWatcherStop => 1
  | CallStartSync | CallStop _ _ => 2
  | CallStartPortForwarding | CallClose _ => 3
  end.

Definition below (n : nat) (tr : list Event) : bool :=
  forallb (fun ev => layer ev <? n)%nat tr.

Definition without (n : nat) (tr : list Event) : bool :=
  forallb (fun ev => negb (layer ev =? n)%nat) tr.

(** What the services that did start are torn down with. *)
Definition stops (cmd : DevCmd) (w : World) : list Event :=
  if Sync cmd then map (fun v => CallStop v None) (fst (StartSync w)) else [].

Definition closes (cmd : DevCmd) (w : World) : list Event :=
  if Portforwarding cmd then map CallClose (fst (StartPortForwarding w))
  else [].

Definition starts (cmd : DevCmd) : list Event :=
  (if Portforwarding cmd then [CallStartPortForwarding] else [])
  ++ (if Sync cmd then [CallStartSync] else []).

(** Whether the watcher is created. *)
Definition watches (cmd : DevCmd) (w : World) : bool :=
  negb (SkipPipeline cmd) && (0 <? length (GetPaths w))%nat.

(** Port forwarding and sync start without error, where they are
    enabled. *)
Definition servicesStart (cmd : DevCmd) (w : World) : Prop :=
  (Portforwarding cmd = true -> snd (StartPortForwarding w) = None)
  /\ (Sync cmd = true -> snd (StartSync w) = None).

End DevTrace.

(** * Properties of the decisions *)

Module SyncSpec.
Import Sync Fixtures.

Lemma eqb_false_not (a b : bool) : negb (eqb a b) = false <-> a = b.
Proof. destruct a, b; simpl; split; congruence. Qed.

(** Unfolds [shouldRemoveLocal] down to the tests of the source. *)
Ltac open_remove_local :=
  unfold shouldRemoveLocal, shouldRemoveLocalLog.

(** C1. [shouldRemoveLocal] answers true exactly when the snapshot is not
    nil, the stat of the local path succeeds with an entry, the path has a
    tracked record, the stat's directory-ness agrees with the record's and
    the snapshot's, and, for a file snapshot, the snapshot's mtime and size
    equal the record's and the live mtime is at most the snapshot's.  In
    every other case, a failing stat among them, the answer is false. *)
Theorem shouldRemoveLocal_true_iff
    (Stat : os.StatFn) (absFilepath : string)
    (fileInformation : option FileInformation) (s : Sync) :
  (shouldRemoveLocal Stat absFilepath fileInformation s = true <->
   exists snap stat rec,
     fileInformation = Some snap
     /\ Stat absFilepath = (Some stat, None)
     /\ tracked s (Name snap) = Some rec
     /\ os.IsDir stat = IsDirectory rec
     /\ os.IsDir stat = IsDirectory snap
     /\ (IsDirectory snap = false ->
         Mtime snap = Mtime rec /\ Size snap = Size rec
         /\ os.ModTimeUnix stat <= Mtime snap))
  /\ (forall stat err, Stat absFilepath = (stat, Some err) ->
      shouldRemoveLocal Stat absFilepath fileInformation s = false).
Proof.
  split.
  - open_remove_local. split.
    + destruct fileInformation as [snap|]; [|discriminate].
      destruct (Stat absFilepath) as [[stat|] [err|]] eqn:Hstat;
        try (destruct (negb (os.IsNotExist err)); discriminate);
        try discriminate.
      destruct (tracked s (Name snap)) as [rec|] eqn:Hrec; [|discriminate].
      destruct (negb (eqb (os.IsDir stat) (IsDirectory rec))) eqn:Hd1;
        [discriminate|].
      destruct (negb (eqb (os.IsDir stat) (IsDirectory snap))) eqn:Hd2;
        [discriminate|].
      apply (proj1 (eqb_false_not _ _)) in Hd1, Hd2. simpl.
      intros H. exists snap, stat, rec.
      do 5 (split; [assumption || reflexivity|]).
      intros Hfile. rewrite Hfile in H. simpl in H.
      destruct (Mtime snap =? Mtime rec) eqn:Hm; [|discriminate].
      destruct (Size snap =? Size rec) eqn:Hs; [|discriminate].
      destruct (os.ModTimeUnix stat <=? Mtime snap) eqn:Hl; [|discriminate].
      apply Z.eqb_eq in Hm, Hs. apply Z.leb_le in Hl. auto.
    + intros (snap & stat & rec & -> & -> & -> & Hd1 & Hd2 & Hfile).
      apply (proj2 (eqb_false_not _ _)) in Hd1, Hd2.
      rewrite Hd1, Hd2. simpl.
      destruct (IsDirectory snap); [reflexivity|]. simpl.
      destruct Hfile as (Hm & Hs & Hl); [reflexivity|].
      apply Z.eqb_eq in Hm, Hs. apply Z.leb_le in Hl.
      rewrite Hm, Hs, Hl. reflexivity.
  - intros stat err Hstat. open_remove_local.
    destruct fileInformation as [snap|]; [|reflexivity].
    rewrite Hstat. destruct stat; destruct (negb (os.IsNotExist err));
      reflexivity.
Qed.

Lemma shouldRemoveLocal_true_iff_witness :
  shouldRemoveLocal unreadable "/app/main.go"
    (Some (fileRecord "main.go" 10 500))
    (tracking (fileRecord "main.go" 10 500)) = false.
Proof.
  apply (proj2 (shouldRemoveLocal_true_iff unreadable "/app/main.go"
                  (Some (fileRecord "main.go" 10 500))
                  (tracking (fileRecord "main.go" 10 500)))
               None (os.ErrOther "permission denied")).
  reflexivity.
Defined.

(** The spec's deletion-safety example: record and snapshot at mtime 500,
    size 10, the local file edited at 600. *)
Example shouldRemoveLocal_edited_after_snapshot :
  shouldRemoveLocalLog (diskWith (regular 10 600)) "/app/main.go"
    (Some (fileRecord "main.go" 10 500))
    (tracking (fileRecord "main.go" 10 500))
  = (false, [SkipModTimeGreater "/app/main.go" 600 500]).
Proof. vm_compute. reflexivity. Qed.

Example shouldRemoveLocal_untouched_file :
  shouldRemoveLocalLog (diskWith (regular 10 500)) "/app/main.go"
    (Some (fileRecord "main.go" 10 500))
    (tracking (fileRecord "main.go" 10 500))
  = (true, []).
Proof. vm_compute. reflexivity. Qed.

Example shouldRemoveLocal_directory :
  shouldRemoveLocalLog (diskWith (directory 900)) "/app/main.go"
    (Some (dirRecord "main.go" 500))
    (tracking (dirRecord "main.go" 500))
  = (true, []).
Proof. vm_compute. reflexivity. Qed.

(** ** [shouldUpload] *)

(** C2. For a tracked path outside the initial pass, with the path not
    ignored, the local entry neither a symbolic link nor a directory and
    the tracked record not a symbolic link, [shouldUpload] answers false
    exactly when the local mtime and size both equal the record's. *)
Theorem shouldUpload_steady_false_iff
    (relativePath : string) (stat : os.FileInfo) (s : Sync)
    (rec : FileInformation) :
  matched (ignoreMatcher s) relativePath = false ->
  Z.land (os.Mode stat) os.ModeSymlink = 0 ->
  os.IsDir stat = false ->
  tracked s relativePath = Some rec ->
  IsSymbolicLink rec = false ->
  (shouldUpload relativePath (Some stat) s false = false <->
   os.ModTimeUnix stat = Mtime rec /\ os.Size stat = Size rec).
Proof.
  intros Hign Hlink Hdir Hrec Hsym. unfold shouldUpload.
  rewrite Hign, Hlink, Hrec, Hdir, Hsym. simpl.
  destruct (Z.eqb_spec (os.ModTimeUnix stat) (Mtime rec)) as [Hm|Hm];
    destruct (Z.eqb_spec (os.Size stat) (Size rec)) as [Hs|Hs]; simpl;
    split; intros H; try discriminate; tauto.
Qed.

Lemma shouldUpload_steady_false_iff_witness :
  shouldUpload "main.go" (Some (regular 50 1000))
    (tracking (fileRecord "main.go" 50 1000)) false = false
  <-> os.ModTimeUnix (regular 50 1000) = Mtime (fileRecord "main.go" 50 1000)
      /\ os.Size (regular 50 1000) = Size (fileRecord "main.go" 50 1000).
Proof.
  apply (shouldUpload_steady_false_iff "main.go" (regular 50 1000)
           (tracking (fileRecord "main.go" 50 1000))
           (fileRecord "main.go" 50 1000)); reflexivity.
Defined.

(** The spec's examples for the steady state. *)
Example shouldUpload_unchanged :
  shouldUpload "main.go" (Some (regular 50 1000))
    (tracking (fileRecord "main.go" 50 1000)) false = false.
Proof. vm_compute. reflexivity. Qed.

Example shouldUpload_changed :
  shouldUpload "main.go" (Some (regular 55 1001))
    (tracking (fileRecord "main.go" 50 1000)) false = true.
Proof. vm_compute. reflexivity. Qed.

(** C4. In the initial pass a tracked path whose local mtime does not
    exceed the record's is not uploaded, whatever its size. *)
Theorem shouldUpload_initial_not_newer
    (relativePath : string) (stat : os.FileInfo) (s : Sync)
    (rec : FileInformation) :
  tracked s relativePath = Some rec ->
  os.ModTimeUnix stat <= Mtime rec ->
  shouldUpload relativePath (Some stat) s true = false.
Proof.
  intros Hrec Hle. unfold shouldUpload. rewrite Hrec.
  apply Z.leb_le in Hle. rewrite Hle.
  repeat match goal with
         | |- (if ?c then _ else _) = _ => destruct c; try reflexivity
         end.
Qed.

Lemma shouldUpload_initial_not_newer_witness :
  shouldUpload "main.go" (Some (regular 77 1000))
    (tracking (fileRecord "main.go" 50 1000)) true = false.
Proof.
  apply (shouldUpload_initial_not_newer "main.go" (regular 77 1000)
           (tracking (fileRecord "main.go" 50 1000))
           (fileRecord "main.go" 50 1000)).
  - reflexivity.
  - simpl. lia.
Defined.

(** C8. A path that is not ignored, whose local entry is no symbolic link
    and that has no tracked record is uploaded, in the initial pass and
    after it; [shouldUpload] is a total function to [bool], and without a
    stat it answers false. *)
Theorem shouldUpload_untracked
    (relativePath : string) (stat : os.FileInfo) (s : Sync)
    (isInitial : bool) :
  (matched (ignoreMatcher s) relativePath = false ->
   Z.land (os.Mode stat) os.ModeSymlink = 0 ->
   tracked s relativePath = None ->
   shouldUpload relativePath (Some stat) s isInitial = true)
  /\ shouldUpload relativePath None s isInitial = false.
Proof.
  split; [|reflexivity].
  intros Hign Hlink Hrec. unfold shouldUpload.
  rewrite Hign, Hlink, Hrec. reflexivity.
Qed.

Lemma shouldUpload_untracked_witness :
  shouldUpload "new.go" (Some (regular 12 1700000000)) emptySync false
  = true.
Proof.
  apply (proj1 (shouldUpload_untracked "new.go" (regular 12 1700000000)
                  emptySync false)); reflexivity.
Defined.

(** C7. Once a record carrying the mtime and size observed on the
    uploaded file is committed for the path, [shouldUpload] on the
    unchanged file, outside the initial pass, answers false. *)
Theorem shouldUpload_after_commit
    (relativePath : string) (stat : os.FileInfo) (s : Sync)
    (rec : FileInformation) :
  Mtime rec = os.ModTimeUnix stat ->
  Size rec = os.Size stat ->
  shouldUpload relativePath (Some stat) (commit relativePath rec s) false
  = false.
Proof.
  intros Hm Hs. unfold shouldUpload, tracked, commit. simpl.
  rewrite lookup_insert_eq, Hm, Hs, !Z.eqb_refl. simpl.
  repeat match goal with
         | |- (if ?c then _ else _) = _ => destruct c; try reflexivity
         end.
Qed.

Lemma shouldUpload_after_commit_witness :
  shouldUpload "new.go" (Some (regular 12 1700000000))
    (commit "new.go" (recordOf "new.go" (regular 12 1700000000)) emptySync)
    false = false.
Proof.
  apply (shouldUpload_after_commit "new.go" (regular 12 1700000000)
           emptySync (recordOf "new.go" (regular 12 1700000000)));
    reflexivity.
Defined.

(** ** [shouldDownload] *)

(** C3. Without a tracked record a remote change is downloaded; with one,
    a directory change is not; a file change is downloaded exactly when
    its mtime is strictly newer than the record's, or equal with a
    different size. *)
Theorem shouldDownload_cases (change : remote.Change) (s : Sync) :
  (tracked s (remote.Path change) = None ->
   shouldDownload change s = true)
  /\ (forall rec, tracked s (remote.Path change) = Some rec ->
       remote.IsDir change = true ->
       shouldDownload change s = false)
  /\ (forall rec, tracked s (remote.Path change) = Some rec ->
       remote.IsDir change = false ->
       (shouldDownload change s = true <->
        remote.MtimeUnix change > Mtime rec
        \/ (remote.MtimeUnix change = Mtime rec
            /\ remote.Size change <> Size rec))).
Proof.
  unfold shouldDownload. split; [|split].
  - intros ->. reflexivity.
  - intros rec -> ->. reflexivity.
  - intros rec -> ->. simpl.
    destruct (Z.gtb_spec (remote.MtimeUnix change) (Mtime rec)) as [Hgt|Hle].
    { split; [lia|reflexivity]. }
    destruct (Z.eqb_spec (remote.MtimeUnix change) (Mtime rec)) as [Hm|Hm];
      destruct (Z.eqb_spec (remote.Size change) (Size rec)) as [Hs|Hs];
      simpl; split; try discriminate; try reflexivity;
      try (intros [?|[? ?]]; first [lia | congruence]).
    intros _. right. auto.
Qed.

Lemma shouldDownload_cases_witness :
  shouldDownload
    {| remote.Path := "main.go"; remote.MtimeUnix := 2000;
       remote.Size := 130; remote.IsDir := false |}
    (tracking (fileRecord "main.go" 120 2000)) = true
  <-> 2000 > 2000 \/ (2000 = 2000 /\ 130 <> 120).
Proof.
  apply (proj2 (proj2 (shouldDownload_cases
           {| remote.Path := "main.go"; remote.MtimeUnix := 2000;
              remote.Size := 130; remote.IsDir := false |}
           (tracking (fileRecord "main.go" 120 2000))))
           (fileRecord "main.go" 120 2000)); reflexivity.
Defined.

(** The spec's examples. *)
Example shouldDownload_newer :
  shouldDownload
    {| remote.Path := "main.go"; remote.MtimeUnix := 2000;
       remote.Size := 120; remote.IsDir := false |}
    (tracking (fileRecord "main.go" 120 1999)) = true.
Proof. vm_compute. reflexivity. Qed.

Example shouldDownload_same_mtime_other_size :
  shouldDownload
    {| remote.Path := "main.go"; remote.MtimeUnix := 2000;
       remote.Size := 130; remote.IsDir := false |}
    (tracking (fileRecord "main.go" 120 2000)) = true.
Proof. vm_compute. reflexivity. Qed.

Example shouldDownload_older :
  shouldDownload
    {| remote.Path := "main.go"; remote.MtimeUnix := 1998;
       remote.Size := 130; remote.IsDir := false |}
    (tracking (fileRecord "main.go" 120 2000)) = false.
Proof. vm_compute. reflexivity. Qed.

(** ** [shouldRemoveRemote] *)

(** C5. [shouldRemoveRemote] answers true exactly when neither matcher
    matches the path, the path is tracked and its record is no symbolic
    link.  The upload-exclusion matcher matters to this decision (the last
    part shows a session where it turns the answer) and to none of the
    other three, which answer the same whatever that matcher is. *)
Theorem shouldRemoveRemote_true_iff (relativePath : string) (s : Sync) :
  (shouldRemoveRemote relativePath s = true <->
   matched (ignoreMatcher s) relativePath = false
   /\ matched (uploadIgnoreMatcher s) relativePath = false
   /\ exists rec, tracked s relativePath = Some rec
                  /\ IsSymbolicLink rec = false)
  /\ (forall m stat isInitial,
       shouldUpload relativePath stat (setUploadIgnoreMatcher m s) isInitial
       = shouldUpload relativePath stat s isInitial)
  /\ (forall m change,
       shouldDownload change (setUploadIgnoreMatcher m s)
       = shouldDownload change s)
  /\ (forall m Stat absFilepath fileInformation,
       shouldRemoveLocalLog Stat absFilepath fileInformation
         (setUploadIgnoreMatcher m s)
       = shouldRemoveLocalLog Stat absFilepath fileInformation s)
  /\ (shouldRemoveRemote "build.log"
        (tracking (fileRecord "build.log" 10 500)) = false
      /\ shouldRemoveRemote "build.log"
           (setUploadIgnoreMatcher None
              (tracking (fileRecord "build.log" 10 500))) = true).
Proof.
  split; [|repeat split; reflexivity].
  unfold shouldRemoveRemote.
  destruct (matched (ignoreMatcher s) relativePath);
    [split; [discriminate|intros [? _]; discriminate]|].
  destruct (matched (uploadIgnoreMatcher s) relativePath);
    [split; [discriminate|intros (_ & ? & _); discriminate]|].
  destruct (tracked s relativePath) as [rec|].
  - destruct (IsSymbolicLink rec) eqn:Hsym.
    + split; [discriminate|].
      intros (_ & _ & rec' & Heq & Hrec'). congruence.
    + split; [|reflexivity]. intros _. eauto.
  - split; [discriminate|]. intros (_ & _ & rec' & Heq & _). discriminate.
Qed.

(** ** The index under the pipelines *)

Lemma step_keeps (st : Session) (ev : PipelineEvent) (p : string) :
  writes p ev = false ->
  tracked (sync (step st ev)) p = tracked (sync st) p.
Proof.
  unfold tracked.
  destruct ev as [q|q n|q obs|q|q [|] [e|]]; simpl; try reflexivity.
  - intros H. apply bool_decide_eq_false in H.
    apply lookup_insert_ne. assumption.
  - intros H. apply bool_decide_eq_false in H.
    apply lookup_delete_ne. assumption.
Qed.

Lemma step_tracked_some (st : Session) (ev : PipelineEvent) (p : string)
    (rec : FileInformation) :
  tracked (sync (step st ev)) p = Some rec ->
  tracked (sync st) p = Some rec \/ ev = TransferComplete p rec.
Proof.
  destruct (writes p ev) eqn:Hw.
  - destruct ev as [q|q n|q obs|q|q [|] [e|]]; simpl in Hw;
      try discriminate; apply bool_decide_eq_true in Hw; subst q;
      unfold tracked; simpl.
    + rewrite lookup_insert_eq. intros [= ->]. right. reflexivity.
    + rewrite lookup_delete_eq. discriminate.
  - rewrite (step_keeps st ev p Hw). auto.
Qed.

Lemma step_tracked_none (st : Session) (ev : PipelineEvent) (p : string) :
  tracked (sync (step st ev)) p = None ->
  tracked (sync st) p = None \/ ev = Deletion p true None.
Proof.
  destruct (writes p ev) eqn:Hw.
  - destruct ev as [q|q n|q obs|q|q [|] [e|]]; simpl in Hw;
      try discriminate; apply bool_decide_eq_true in Hw; subst q;
      unfold tracked; simpl.
    + rewrite lookup_insert_eq. discriminate.
    + intros _. right. reflexivity.
  - rewrite (step_keeps st ev p Hw). auto.
Qed.

(** C6. Over any run of the pipelines, the index entry of a path stays as
    it was unless a transfer of that path completed or a deletion of it
    was decided safe and executed: begun, partial and aborted transfers
    leave it alone.  A record found in the index afterwards was there
    before or is the one a completed transfer of the path observed, and an
    entry that disappeared was removed by a safe, executed deletion. *)
Theorem index_written_on_success_only
    (evs : list PipelineEvent) (st : Session) (p : string) :
  (forallb (fun ev => negb (writes p ev)) evs = true ->
   tracked (sync (run st evs)) p = tracked (sync st) p)
  /\ (forall rec, tracked (sync (run st evs)) p = Some rec ->
       tracked (sync st) p = Some rec \/ In (TransferComplete p rec) evs)
  /\ (tracked (sync (run st evs)) p = None ->
       tracked (sync st) p = None \/ In (Deletion p true None) evs).
Proof.
  revert st. induction evs as [|ev evs IH]; intros st.
  - simpl. auto.
  - destruct (IH (step st ev)) as (IHkeep & IHsome & IHnone).
    unfold run in *. simpl. repeat split.
    + intros H. apply andb_prop in H as [Hev Hevs].
      rewrite (IHkeep Hevs). apply step_keeps.
      apply negb_true_iff. assumption.
    + intros rec H. destruct (IHsome rec H) as [H'|H']; [|auto].
      destruct (step_tracked_some st ev p rec H'); subst; auto.
    + intros H. destruct (IHnone H) as [H'|H']; [|auto].
      destruct (step_tracked_none st ev p H'); subst; auto.
Qed.

Lemma index_written_on_success_only_witness :
  tracked
    (sync (run {| sync := tracking (fileRecord "main.go" 50 1000);
                  inflight := ∅ |}
               [TransferBegin "main.go"; TransferChunk "main.go" 20;
                TransferAbort "main.go";
                Deletion "main.go" true (Some (os.ErrOther "busy"));
                Deletion "main.go" false None]))
    "main.go"
  = Some (fileRecord "main.go" 50 1000).
Proof.
  apply (proj1 (index_written_on_success_only
           [TransferBegin "main.go"; TransferChunk "main.go" 20;
            TransferAbort "main.go";
            Deletion "main.go" true (Some (os.ErrOther "busy"));
            Deletion "main.go" false None]
           {| sync := tracking (fileRecord "main.go" 50 1000);
              inflight := ∅ |} "main.go")).
  reflexivity.
Defined.

End SyncSpec.

(** * Properties of [startServices] *)

Module DevSpec.
Import Dev DevFixtures.

Example startServices_all_fine :
  startServices defaults emptyConfig allFine
  = ([CallStartPortForwarding; CallStartSync; CallWatchNew ["chart/**"];
      CallWatcherStart;
      CallStartTerminal {| pSelector := None; pContainerName := None;
                           pLabelSelector := None; pNamespace := None |};
      CallWatcherStop;
      CallStop {| syncId := 0 |} None; CallStop {| syncId := 1 |} None;
      CallClose {| pfId := 0 |}],
     Returned None).
Proof. reflexivity. Qed.

Example startServices_sync_fails :
  startServices defaults emptyConfig syncFails
  = ([CallStartPortForwarding; CallStartSync; CallClose {| pfId := 0 |}],
     Returned (Some (errorString
                       "Unable to start sync: no running pod found"))).
Proof. reflexivity. Qed.

Lemma in_stops (v : SyncConfig) (e : option error) (l : list SyncConfig) :
  In (CallStop v e) (map (fun v => CallStop v None) l) <->
  e = None /\ In v l.
Proof.
  rewrite in_map_iff. split.
  - intros (x & [= -> <-] & Hin). auto.
  - intros [-> Hin]. eauto.
Qed.

Lemma not_in_closes (v : SyncConfig) (e : option error)
    (l : list PortForwarder) :
  ~ In (CallStop v e) (map CallClose l).
Proof. rewrite in_map_iff. intros (x & Hx & _). discriminate. Qed.

(** Splits a membership in a trace into its parts. *)
Ltac split_in H :=
  lazymatch type of H with
  | In _ (_ ++ _) =>
    apply in_app_or in H; destruct H as [H|H]; split_in H
  | In _ (map CallClose _) => apply not_in_closes in H; contradiction
  | In _ (map _ _) => apply in_stops in H
  | In _ (_ :: _) => destruct H as [H|H]; [discriminate H|split_in H]
  | _ = _ \/ _ => destruct H as [H|H]; [discriminate H|split_in H]
  | In _ [] => contradiction H
  | False => contradiction H
  | _ => idtac
  end.

Lemma quiet_no_stop (r : Run) (v : SyncConfig) (e : option error) :
  quiet r = true -> ~ In (CallStop v e) (fst r).
Proof.
  unfold quiet. rewrite forallb_forall. intros Hq Hin.
  specialize (Hq _ Hin). discriminate Hq.
Qed.

Lemma quiet_after (done : list Event) (body : Run) :
  forallb (fun ev => negb (isStop ev)) done = true ->
  quiet body = true -> quiet (after done body) = true.
Proof.
  unfold quiet, after. simpl. rewrite forallb_app.
  intros -> ->. reflexivity.
Qed.

Lemma quiet_deferring (deferred : list Event) (body : Run) :
  forallb (fun ev => negb (isStop ev)) deferred = true ->
  quiet body = true -> quiet (deferring deferred body) = true.
Proof.
  unfold quiet, deferring. destruct body as [tr [err|]]; simpl.
  - rewrite forallb_app. intros -> ->. reflexivity.
  - auto.
Qed.

Lemma returns_after (done : list Event) (body : Run) :
  returns (after done body) = returns body.
Proof. reflexivity. Qed.

Lemma returns_deferring (deferred : list Event) (body : Run) :
  returns (deferring deferred body) = returns body.
Proof. destruct body as [tr [err|]]; reflexivity. Qed.

(** What deferring the [Stop(nil)] calls of the sessions [l] around a
    quiet body gives. *)
Lemma deferring_stops (l : list SyncConfig) (body : Run) :
  quiet body = true ->
  (forall v e,
     In (CallStop v e) (fst (deferring (map (fun v => CallStop v None) l) body)) ->
     e = None /\ In v l)
  /\ (forall v,
        returns body = true -> In v l ->
        In (CallStop v None)
           (fst (deferring (map (fun v => CallStop v None) l) body))).
Proof.
  intros Hq. destruct body as [tr [err|]]; simpl; split.
  - intros v e H. apply in_app_or in H as [H|H].
    + exfalso. exact (quiet_no_stop (tr, Returned err) v e Hq H).
    + apply in_stops. exact H.
  - intros v _ Hin. apply in_or_app. right. apply in_stops. auto.
  - intros v e H. exfalso. exact (quiet_no_stop (tr, Blocked) v e Hq H).
  - discriminate.
Qed.

(** Cases on every answer the run depends on. *)
Ltac run_cases cmd config w :=
  unfold startServices, deferring, after, reachesSync;
  destruct cmd as [pf sy skip term sel cont lab ns];
  destruct w as [[pfs pferr] [scs serr] paths wn st sa ex];
  cbn [Portforwarding Sync SkipPipeline Terminal Selector Container
       LabelSelector Namespace StartPortForwarding StartSync GetPaths
       watchNew StartTerminal StartAttach exitChan fst snd].

(** C9. When [startServices] gets to start the sync: if
    [services.StartSync] fails, it returns the error "Unable to start
    sync: ..." and calls [Stop] on no session, whatever the failing call
    handed back; if it succeeds, every [Stop] call is [Stop(nil)] on one of
    the started sessions, every started session has had its [Stop(nil)]
    by the time [startServices] returns, and it does return once the exit
    channel delivers. *)
Theorem startServices_stops_sync_sessions
    (cmd : DevCmd) (config : Config) (w : World) :
  reachesSync cmd w = true ->
  (forall err, snd (StartSync w) = Some err ->
     snd (startServices cmd config w)
     = Returned (Some (Errorf "Unable to start sync: " err))
     /\ forall v e, ~ In (CallStop v e) (fst (startServices cmd config w)))
  /\ (snd (StartSync w) = None ->
      (forall v e, In (CallStop v e) (fst (startServices cmd config w)) ->
         e = None /\ In v (fst (StartSync w)))
      /\ (forall err v,
            snd (startServices cmd config w) = Returned err ->
            In v (fst (StartSync w)) ->
            In (CallStop v None) (fst (startServices cmd config w)))
      /\ (exitChan w <> None ->
          exists err, snd (startServices cmd config w) = Returned err)).
Proof.
  intros Hreach. split.
  - intros err Herr. revert Hreach Herr. run_cases cmd config w.
    intros Hreach ->.
    destruct sy; [|discriminate Hreach].
    destruct pf; simpl in Hreach.
    + apply bool_decide_eq_true in Hreach. subst pferr. simpl.
      split; [reflexivity|]. intros v e H. split_in H.
    + simpl. split; [reflexivity|]. intros v e H. split_in H.
  - intros Hok. revert Hreach Hok.
    unfold startServices, reachesSync.
    destruct cmd as [pf sy skip term sel cont lab ns];
      destruct w as [[pfs pferr] [scs serr] paths wn st sa ex];
      cbn [Portforwarding Sync SkipPipeline Terminal Selector Container
           LabelSelector Namespace StartPortForwarding StartSync GetPaths
           watchNew StartTerminal StartAttach exitChan fst snd];
      cbv zeta.
    intros Hreach ->.
    match goal with
    | |- context [deferring [CallWatcherStop] ?b] => set (attach := b)
    end.
    match goal with
    | |- context [deferring (map _ scs) ?b] => set (watch := b)
    end.
    assert (Hattach : quiet attach = true
                      /\ (ex <> None -> returns attach = true)).
    { subst attach.
      destruct term, (terminalEnabled config), sa as [[|msg]|], ex as [v|];
        split; try reflexivity; intros Hex; try reflexivity;
        contradiction. }
    destruct Hattach as [Hquiet Hret].
    assert (Hwatch : quiet watch = true
                     /\ (ex <> None -> returns watch = true)).
    { subst watch.
      destruct skip, (0 <? length paths)%nat, wn as [werr|]; simpl;
        split; try assumption; try reflexivity;
        rewrite ?returns_after, ?returns_deferring; try assumption;
        repeat first [apply quiet_after; [reflexivity|]
                     |apply quiet_deferring; [reflexivity|]];
        assumption. }
    clearbody watch. clear attach Hquiet Hret.
    destruct Hwatch as [Hquiet Hret].
    destruct (deferring_stops scs watch Hquiet) as [Honly Hall].
    assert (Hblocked : forall d, snd watch = Blocked ->
                                 deferring d watch = watch).
    { intros d Hb. destruct watch as [tr [err|]]; [discriminate Hb|].
      reflexivity. }
    destruct sy; [|discriminate Hreach].
    assert (Hpf : pf = false \/ pferr = None).
    { destruct pf; simpl in Hreach; [right|left; reflexivity].
      apply bool_decide_eq_true in Hreach. exact Hreach. }
    clear Hreach.
    set (stops := map (fun v => CallStop v None) scs) in *.
    assert (Hreturned : forall err, snd (deferring stops watch) = Returned err ->
                                    returns watch = true).
    { intros err. unfold returns.
      destruct watch as [tr [err'|]]; [reflexivity|discriminate]. }
    assert (Hexit : ex <> None ->
                    exists err, snd (deferring stops watch) = Returned err).
    { intros Hex. specialize (Hret Hex). unfold returns in Hret.
      destruct watch as [tr [err'|]]; [|discriminate Hret]. simpl. eauto. }
    destruct Hpf as [-> | ->]; [|destruct pf].
    + simpl. split; [|split].
      * intros v e [H|H]; [discriminate H|]. auto.
      * intros err v H Hin. right. eauto.
      * exact Hexit.
    + destruct (deferring stops watch) as [tr [err|]] eqn:Hrun; simpl;
        (split; [|split]).
      * intros v e [H|[H|H]]; try discriminate H.
        apply in_app_or in H as [H|H]; [auto|].
        apply not_in_closes in H. contradiction.
      * intros err' v _ Hin. right. right. apply in_or_app. left.
        apply Hall; [|exact Hin]. apply (Hreturned err). reflexivity.
      * eauto.
      * intros v e [H|[H|H]]; try discriminate H. auto.
      * discriminate.
      * intros Hex. destruct (Hexit Hex) as [err Herr]. discriminate Herr.
    + simpl. split; [|split].
      * intros v e [H|H]; [discriminate H|]. auto.
      * intros err v H Hin. right. eauto.
      * exact Hexit.
Qed.

Lemma startServices_stops_sync_sessions_witness :
  In (CallStop {| syncId := 1 |} None)
     (fst (startServices defaults emptyConfig allFine)).
Proof.
  apply (proj1 (proj2 (proj2 (startServices_stops_sync_sessions
                                defaults emptyConfig allFine eq_refl)
                             eq_refl))
               None {| syncId := 1 |}).
  - reflexivity.
  - simpl. auto.
Defined.

End DevSpec.

(** * Properties of [ExecBuffered] *)

Module KubectlSpec.
Import Kubectl KubectlFixtures.

Lemma bind_eq {A B : Type} (m : M A) (k : A -> M B) (s s' : OS) (a : A) :
  m s = (a, s') -> bind m k s = k a s'.
Proof. unfold bind. intros ->. reflexivity. Qed.

(** Runs the first call of a sequence, naming its result and the state it
    leaves. *)
Ltac step_call a s' E :=
  match goal with
  | |- context [bind ?m ?k ?s] =>
    destruct (m s) as [a s'] eqn:E; rewrite (bind_eq m k s s' a E)
  end.

Ltac open_io :=
  unfold Close, Open, ReadFrom, readAll, Remove, TempFile, Write,
    ExecStream, allocate, logOp, setDescriptor, setFiles, bind, ret, get,
    modify.

(** [os.Open], when it succeeds: the file exists, and the new descriptor
    is the next free one, at offset 0. *)
Lemma Open_ok (fails : option error) (name : string) (s s' : OS) (f : File) :
  Open fails name s = (inl f, s') ->
  fd f = nextFd s /\ is_Some (files s !! name)
  /\ files s' = files s /\ nextFd s' = S (nextFd s)
  /\ table s' = <[nextFd s := {| path := name; offset := 0%nat;
                                 closed := false |}]> (table s).
Proof.
  open_io. simpl. destruct fails as [err|]; [discriminate|]. simpl.
  destruct (files s !! name) as [content|] eqn:Hfile; [|discriminate].
  intros [= <- <-]. simpl. eauto 10.
Qed.

(** [ReadFrom], when it succeeds: the descriptor is open and the read
    gives what lies behind its offset, moving the offset to the end. *)
Lemma ReadFrom_ok (fails : option error) (f : File) (s s' : OS)
    (got : bytes) :
  ReadFrom fails f s = (inl got, s') ->
  exists d, table s !! fd f = Some d /\ files s' = files s
            /\ nextFd s' = nextFd s
            /\ (files s !! path d = None /\ got = []
                /\ table s' = table s
                \/ exists content,
                     files s !! path d = Some content
                     /\ got = drop (offset d) content
                     /\ table s' = <[fd f := {| path := path d;
                                                offset := length content;
                                                closed := false |}]>
                                     (table s)).
Proof.
  open_io. simpl. destruct fails as [err|]; [discriminate|]. simpl.
  destruct (table s !! fd f) as [d|] eqn:Hd; [|discriminate].
  destruct (closed d); [discriminate|].
  destruct (files s !! path d) as [content|] eqn:Hfile; simpl.
  - intros [= <- <-]. simpl. exists d. eauto 10.
  - intros [= <- <-]. simpl. exists d. eauto 10.
Qed.

(** The second read through one descriptor finds nothing left, whatever
    file [os.Open] opened in between. *)
Lemma reread_empty (f f' : File) (o1 r1 o2 r2 : option error)
    (name1 name2 : string) (s1 s2 s3 s4 s5 : OS) (got got' : bytes) :
  Open o1 name1 s1 = (inl f, s2) ->
  ReadFrom r1 f s2 = (inl got, s3) ->
  Open o2 name2 s3 = (inl f', s4) ->
  ReadFrom r2 f s4 = (inl got', s5) ->
  got' = [].
Proof.
  intros H1 H2 H3 H4.
  apply Open_ok in H1 as (Hfd & _ & Hfiles2 & Hnext2 & Htable2).
  apply ReadFrom_ok in H2 as (d & Hd & Hfiles3 & Hnext3 & Hread).
  apply Open_ok in H3 as (_ & _ & Hfiles4 & _ & Htable4).
  apply ReadFrom_ok in H4 as (d' & Hd' & _ & _ & Hread').
  assert (Hne : nextFd s3 <> fd f) by lia.
  rewrite Htable4, (lookup_insert_ne _ _ _ _ Hne) in Hd'.
  destruct Hread' as [(_ & -> & _)|(content' & Hc' & -> & _)];
    [reflexivity|].
  rewrite Hfiles4, Hfiles3 in Hc'.
  destruct Hread as [(Hnone & _ & Htable3)|(content & Hc & _ & Htable3)].
  - rewrite Htable3, Hd in Hd'. injection Hd' as Heq. subst d'.
    rewrite Hnone in Hc'. discriminate Hc'.
  - rewrite Htable3, lookup_insert_eq in Hd'. injection Hd' as Heq.
    subst d'. simpl in *. rewrite Hc in Hc'. injection Hc' as Heq.
    subst content'. apply drop_all.
Qed.

(** [readBack] hands back no stderr bytes. *)
Lemma readBack_stderr_empty (w : World) (so se : File)
    (k : option error) (s : OS) :
  stderrOf (fst (readBack w so se k s)) = [].
Proof.
  unfold readBack.
  step_call u1 s1 E1. step_call u2 s2 E2.
  step_call r3 s3 E3. destruct r3 as [f|err]; [|reflexivity].
  step_call r4 s4 E4. destruct r4 as [got|err]; [|reflexivity].
  step_call r5 s5 E5. destruct r5 as [f'|err]; [|reflexivity].
  step_call r6 s6 E6. destruct r6 as [got'|err]; [|reflexivity].
  simpl. exact (reread_empty _ _ _ _ _ _ _ _ _ _ _ _ _ _ _ E3 E4 E5 E6).
Qed.

Lemma deferring_value {A : Type} (cleanup : M unit) (body : M A) (s : OS) :
  fst (deferring cleanup body s) = fst (body s).
Proof.
  unfold deferring, bind, ret. destruct (body s) as [a s'].
  destruct (cleanup s') as [u s'']. reflexivity.
Qed.

(** Whatever the system and the remote command do, the stderr result of
    [ExecBuffered] is empty. *)
Lemma ExecBuffered_no_stderr (w : World) (s : OS) :
  stderrOf (fst (ExecBuffered w s)) = [].
Proof.
  unfold ExecBuffered.
  step_call r1 s1 E1. destruct r1 as [so|err]; [|reflexivity].
  rewrite deferring_value.
  step_call r2 s2 E2. destruct r2 as [se|err]; [|reflexivity].
  rewrite deferring_value.
  step_call k s3 E3.
  destruct k as [err|]; [destruct (negb (isCodeExitError err))|];
    try reflexivity; apply readBack_stderr_empty.
Qed.

(** *** The log of calls *)

Section Log.
Context (P : Op -> Prop).

Lemma logsOnly_ret {A : Type} (a : A) : logsOnly P (ret a).
Proof. intros s. exists []. simpl. rewrite app_nil_r. auto. Qed.

Lemma logsOnly_get : logsOnly P get.
Proof. intros s. exists []. simpl. rewrite app_nil_r. auto. Qed.

Lemma logsOnly_modify (f : OS -> OS) :
  (forall s, oplog (f s) = oplog s) -> logsOnly P (modify f).
Proof.
  intros Hf s. exists []. simpl. rewrite app_nil_r, Hf. auto.
Qed.

Lemma logsOnly_logOp (o : Op) : P o -> logsOnly P (logOp o).
Proof. intros Ho s. exists [o]. simpl. auto. Qed.

(** Sequencing, with what is known of the first call's result. *)
Lemma logsOnly_bind {A B : Type} (R : A -> Prop) (m : M A)
    (k : A -> M B) :
  (forall s, R (fst (m s))) ->
  logsOnly P m -> (forall a, R a -> logsOnly P (k a)) ->
  logsOnly P (bind m k).
Proof.
  intros HR Hm Hk s. unfold bind.
  specialize (HR s). destruct (Hm s) as (l1 & Hl1 & HP1).
  destruct (m s) as [a s1]. simpl in *.
  destruct (Hk a HR s1) as (l2 & Hl2 & HP2).
  exists (l1 ++ l2). rewrite Hl2, Hl1, app_assoc. split; [reflexivity|].
  apply Forall_app. auto.
Qed.

Lemma logsOnly_seq {A B : Type} (m : M A) (k : A -> M B) :
  logsOnly P m -> (forall a, logsOnly P (k a)) -> logsOnly P (bind m k).
Proof.
  intros Hm Hk. apply (logsOnly_bind (fun _ => True)); auto.
Qed.

Lemma logsOnly_deferring {A : Type} (cleanup : M unit) (body : M A) :
  logsOnly P body -> logsOnly P cleanup ->
  logsOnly P (deferring cleanup body).
Proof.
  intros Hb Hc. unfold deferring.
  apply logsOnly_seq; [exact Hb|]. intros a.
  apply logsOnly_seq; [exact Hc|]. intros _. apply logsOnly_ret.
Qed.

(** Goes through a body made of the monad's combinators. *)
Ltac logs :=
  repeat first
    [ apply logsOnly_ret
    | apply logsOnly_get
    | apply logsOnly_modify; intros; reflexivity
    | apply logsOnly_logOp; try assumption
    | apply logsOnly_seq; [|intros]
    | match goal with
      | |- logsOnly _ (match ?x with _ => _ end) => destruct x
      | |- logsOnly _ (if ?x then _ else _) => destruct x
      end ].

Lemma logsOnly_allocate (name : string) : logsOnly P (allocate name).
Proof. unfold allocate. logs. Qed.

Lemma logsOnly_TempFile (pick : string + error) :
  (forall name, P (OpTempFile name)) -> logsOnly P (TempFile pick).
Proof.
  intros HP. unfold TempFile. destruct pick as [name|err]; logs.
  exact (HP name).
Qed.

Lemma logsOnly_Write (f : File) (data : list Byte.byte) :
  logsOnly P (Write f data).
Proof. unfold Write. logs. Qed.

Lemma logsOnly_Close (f : File) : P (OpClose f) -> logsOnly P (Close f).
Proof. intros HP. unfold Close. logs. Qed.

Lemma logsOnly_Open (fails : option error) (name : string) :
  P (OpOpen name) -> logsOnly P (Open fails name).
Proof. intros HP. unfold Open. logs. Qed.

Lemma logsOnly_ReadFrom (fails : option error) (f : File) :
  (forall got, P (OpReadFrom f got)) -> logsOnly P (ReadFrom fails f).
Proof.
  intros HP. unfold ReadFrom, readAll. logs; apply HP.
Qed.

Lemma logsOnly_Remove (name : string) :
  P (OpRemove name) -> logsOnly P (Remove name).
Proof. intros HP. unfold Remove. logs. Qed.

Lemma logsOnly_ExecStream (w : World) (stdout stderr : File) :
  P (OpExecStream stdout stderr) ->
  logsOnly P (ExecStream w stdout stderr).
Proof.
  intros HP. unfold ExecStream. logs.
Qed.

End Log.

Lemma Open_name (fails : option error) (name : string) (s : OS) (f : File) :
  fst (Open fails name s) = inl f -> Name f = name.
Proof.
  open_io. simpl. destruct fails; [discriminate|]. simpl.
  destruct (files s !! name); simpl; [|discriminate].
  intros [= <-]. reflexivity.
Qed.

Lemma grows_refl (P : Op -> Prop) (s : OS) : grows P s s.
Proof. exists []. rewrite app_nil_r. auto. Qed.

Lemma grows_trans (P : Op -> Prop) (s1 s2 s3 : OS) :
  grows P s1 s2 -> grows P s2 s3 -> grows P s1 s3.
Proof.
  intros (l1 & H1 & HP1) (l2 & H2 & HP2). exists (l1 ++ l2).
  rewrite H2, H1, app_assoc. split; [reflexivity|].
  apply Forall_app. auto.
Qed.

Lemma deferring_grows {A : Type} (P : Op -> Prop) (cleanup : M unit)
    (body : M A) (s : OS) :
  grows P s (snd (body s)) -> logsOnly P cleanup ->
  grows P s (snd (deferring cleanup body s)).
Proof.
  intros Hb Hc. unfold deferring, bind, ret.
  destruct (body s) as [a s1]. simpl in Hb.
  specialize (Hc s1). destruct (cleanup s1) as [u s2]. simpl in *.
  exact (grows_trans P s s1 s2 Hb Hc).
Qed.

(** [ioutil.TempFile], when it succeeds: the name was free, and the file
    is there afterwards. *)
Lemma TempFile_ok (pick : string + error) (s s' : OS) (f : File) :
  TempFile pick s = (inl f, s') ->
  pick = inl (Name f) /\ files s !! Name f = None
  /\ is_Some (files s' !! Name f)
  /\ oplog s' = oplog s ++ [OpTempFile (Name f)].
Proof.
  open_io. destruct pick as [name|err]; [|discriminate].
  destruct (files s !! name) eqn:Hfree; [discriminate|].
  intros [= <- <-]. simpl. rewrite lookup_insert_eq. eauto.
Qed.

Lemma TempFile_failed (pick : string + error) (s s' : OS) (err : error) :
  TempFile pick s = (inr err, s') -> s' = s.
Proof.
  open_io. destruct pick as [name|e]; [|congruence].
  destruct (files s !! name); [congruence|discriminate].
Qed.

Lemma logsOnly_readBack (P : Op -> Prop) (w : World) (so se : File)
    (k : option error) :
  (forall f, P (OpClose f)) ->
  P (OpOpen (Name so)) ->
  (forall f got, Name f = Name so -> P (OpReadFrom f got)) ->
  logsOnly P (readBack w so se k).
Proof.
  intros HClose HOpen HRead. unfold readBack.
  apply logsOnly_seq; [apply logsOnly_Close, HClose|intros _].
  apply logsOnly_seq; [apply logsOnly_Close, HClose|intros _].
  apply (logsOnly_bind P (fun r => forall f, r = inl f -> Name f = Name so)).
  { intros s f. apply Open_name. }
  { apply logsOnly_Open, HOpen. }
  intros [f|err] Hname; [|apply logsOnly_ret].
  specialize (Hname f eq_refl).
  apply logsOnly_seq; [apply logsOnly_ReadFrom; auto|].
  intros [got|err]; [|apply logsOnly_ret].
  apply logsOnly_seq; [apply logsOnly_Open; rewrite Hname; exact HOpen|].
  intros [f'|err]; [|apply logsOnly_ret].
  apply logsOnly_seq; [apply logsOnly_ReadFrom; auto|].
  intros [got'|err]; apply logsOnly_ret.
Qed.

(** Every [os.Open] and every read of [ExecBuffered] is on the stdout
    capture. *)
Lemma ExecBuffered_log (w : World) (s : OS) :
  grows (onStdoutCapture w) s (snd (ExecBuffered w s)).
Proof.
  unfold ExecBuffered.
  step_call r1 s1 E1. destruct r1 as [so|err].
  2:{ apply TempFile_failed in E1. subst s1. apply grows_refl. }
  apply TempFile_ok in E1 as (Hpick1 & _ & Hmade1 & Hlog1).
  apply (grows_trans _ s s1).
  { exists [OpTempFile (Name so)]. split; [exact Hlog1|]. repeat constructor. }
  apply deferring_grows; [|apply logsOnly_Remove; exact I].
  step_call r2 s2 E2. destruct r2 as [se|err].
  2:{ apply TempFile_failed in E2. subst s2. apply grows_refl. }
  apply TempFile_ok in E2 as (Hpick2 & Hfree2 & _ & Hlog2).
  assert (Hne : Name se <> Name so).
  { intros Heq. rewrite Heq in Hfree2. rewrite Hfree2 in Hmade1.
    destruct Hmade1 as [x Hx]. discriminate Hx. }
  assert (Hcapture : tempFile1 w = inl (Name so)
                     /\ tempFile2 w <> inl (Name so)).
  { split; [exact Hpick1|]. rewrite Hpick2. intros [= Heq]. auto. }
  apply (grows_trans _ s1 s2).
  { exists [OpTempFile (Name se)]. split; [exact Hlog2|]. repeat constructor. }
  apply deferring_grows; [|apply logsOnly_Remove; exact I].
  assert (Hback : forall k, logsOnly (onStdoutCapture w)
                              (readBack w so se k)).
  { intros k. apply logsOnly_readBack.
    - intros f. exact I.
    - exact Hcapture.
    - intros f got Hname. simpl. rewrite Hname. exact Hcapture. }
  match goal with
  | |- grows _ ?s0 (snd (?m ?s0)) =>
    cut (logsOnly (onStdoutCapture w) m); [intros Hm; exact (Hm s0)|]
  end.
  apply logsOnly_seq.
  - apply logsOnly_ExecStream. exact I.
  - intros [err|]; [destruct (negb (isCodeExitError err))|];
      try apply logsOnly_ret; apply Hback.
Qed.

(** A command that writes to stderr: the caller gets stdout, and nothing
    of stderr; the second [os.Open] is of the stdout capture again, and
    the second read is through the descriptor of the first. *)
Example ExecBuffered_failing_command :
  let stdoutFile := {| fd := 5%nat; Name := "/tmp/001" |} in
  ExecBuffered failingCommand boot
  = (([Byte.x6f; Byte.x6b], [], Some (CodeExitError 1)),
     {| files := ∅;
        table :=
          {[ 3%nat := {| path := "/tmp/001"; offset := 2%nat;
                         closed := true |};
             4%nat := {| path := "/tmp/002"; offset := 2%nat;
                         closed := true |};
             5%nat := {| path := "/tmp/001"; offset := 2%nat;
                         closed := false |};
             6%nat := {| path := "/tmp/001"; offset := 0%nat;
                         closed := false |} ]};
        nextFd := 7%nat;
        oplog :=
          [OpTempFile "/tmp/001"; OpTempFile "/tmp/002";
           OpExecStream {| fd := 3%nat; Name := "/tmp/001" |}
                        {| fd := 4%nat; Name := "/tmp/002" |};
           OpClose {| fd := 3%nat; Name := "/tmp/001" |};
           OpClose {| fd := 4%nat; Name := "/tmp/002" |};
           OpOpen "/tmp/001";
           OpReadFrom stdoutFile [Byte.x6f; Byte.x6b];
           OpOpen "/tmp/001";
           OpReadFrom stdoutFile [];
           OpRemove "/tmp/002"; OpRemove "/tmp/001"] |}).
Proof. vm_compute. reflexivity. Qed.

(** C10. When [ExecBuffered] returns no error or a [CodeExitError], the
    stderr bytes it returns are empty, whatever the remote command wrote
    to stderr: every [os.Open] and every read it makes is on the file
    that captured stdout, never on the one that captured stderr. *)
Theorem ExecBuffered_drops_stderr (w : World) (s : OS) :
  (errorOf (fst (ExecBuffered w s)) = None
   \/ exists code,
        errorOf (fst (ExecBuffered w s)) = Some (CodeExitError code)) ->
  stderrOf (fst (ExecBuffered w s)) = []
  /\ grows (onStdoutCapture w) s (snd (ExecBuffered w s)).
Proof.
  intros _. split.
  - apply ExecBuffered_no_stderr.
  - apply ExecBuffered_log.
Qed.

Lemma ExecBuffered_drops_stderr_witness :
  stderrOf (fst (ExecBuffered failingCommand boot)) = []
  /\ grows (onStdoutCapture failingCommand) boot
           (snd (ExecBuffered failingCommand boot)).
Proof.
  apply (ExecBuffered_drops_stderr failingCommand boot).
  right. exists 1. vm_compute. reflexivity.
Defined.

End KubectlSpec.

(** * Further properties of the decisions *)

Module SyncMore.
Import Sync Fixtures.

(** X1. A remote change whose mtime and size are those of the tracked
    record of its path (as after the change was downloaded) is not
    downloaded again, be it a file or a directory. *)
Theorem shouldDownload_settled
    (change : remote.Change) (s : Sync) (rec : FileInformation) :
  tracked s (remote.Path change) = Some rec ->
  remote.MtimeUnix change = Mtime rec ->
  remote.Size change = Size rec ->
  shouldDownload change s = false.
Proof.
  intros Hrec Hm Hs. unfold shouldDownload. rewrite Hrec, Hm, Hs.
  destruct (remote.IsDir change); simpl; [reflexivity|].
  rewrite !Z.eqb_refl. simpl.
  destruct (Z.gtb_spec (Mtime rec) (Mtime rec)); [lia|reflexivity].
Qed.

Lemma shouldDownload_settled_witness :
  shouldDownload
    {| remote.Path := "main.go"; remote.MtimeUnix := 2000;
       remote.Size := 120; remote.IsDir := false |}
    (tracking (fileRecord "main.go" 120 2000)) = false.
Proof.
  apply (shouldDownload_settled
           {| remote.Path := "main.go"; remote.MtimeUnix := 2000;
              remote.Size := 120; remote.IsDir := false |}
           (tracking (fileRecord "main.go" 120 2000))
           (fileRecord "main.go" 120 2000)); reflexivity.
Defined.

(** X2. [shouldDownload] and [shouldRemoveLocal] read the file index only:
    two sessions with the same index get the same answers and the same
    diagnostics, whatever their ignore matchers are.  So a path the general
    matcher ignores is still downloaded when it is not tracked. *)
Theorem download_and_remove_local_skip_matchers
    (s s' : Sync) (change : remote.Change) (Stat : os.StatFn)
    (absFilepath : string) (fileInformation : option FileInformation) :
  fileIndex s = fileIndex s' ->
  shouldDownload change s = shouldDownload change s'
  /\ shouldRemoveLocalLog Stat absFilepath fileInformation s
     = shouldRemoveLocalLog Stat absFilepath fileInformation s'
  /\ (tracked s (remote.Path change) = None ->
      matched (ignoreMatcher s) (remote.Path change) = true ->
      shouldDownload change s = true).
Proof.
  intros Hidx.
  unfold shouldDownload, shouldRemoveLocalLog, tracked. rewrite Hidx.
  repeat split. intros Hnone _. rewrite Hnone. reflexivity.
Qed.

Lemma download_and_remove_local_skip_matchers_witness :
  shouldDownload
    {| remote.Path := "node_modules"; remote.MtimeUnix := 2000;
       remote.Size := 4096; remote.IsDir := true |} emptySync = true.
Proof.
  apply (proj2 (proj2 (download_and_remove_local_skip_matchers
           emptySync emptySync
           {| remote.Path := "node_modules"; remote.MtimeUnix := 2000;
              remote.Size := 4096; remote.IsDir := true |}
           unreadable "/app/node_modules" None eq_refl)));
    reflexivity.
Defined.

(** X3. Whatever the initial pass uploads, the steady state uploads too:
    the initial pass is the stricter of the two. *)
Theorem shouldUpload_initial_implies_steady
    (relativePath : string) (stat : option os.FileInfo) (s : Sync) :
  shouldUpload relativePath stat s true = true ->
  shouldUpload relativePath stat s false = true.
Proof.
  unfold shouldUpload. destruct stat as [stat|]; [|discriminate].
  destruct (matched (ignoreMatcher s) relativePath); [discriminate|].
  destruct (negb (Z.land (os.Mode stat) os.ModeSymlink =? 0));
    [discriminate|].
  destruct (tracked s relativePath) as [rec|]; [|reflexivity].
  destruct (os.IsDir stat); [discriminate|].
  destruct (IsSymbolicLink rec); [discriminate|].
  destruct (Z.leb_spec (os.ModTimeUnix stat) (Mtime rec)); [discriminate|].
  intros _.
  destruct (Z.eqb_spec (os.ModTimeUnix stat) (Mtime rec)); [lia|].
  reflexivity.
Qed.

Lemma shouldUpload_initial_implies_steady_witness :
  shouldUpload "main.go" (Some (regular 50 1001))
    (tracking (fileRecord "main.go" 50 1000)) false = true.
Proof.
  apply (shouldUpload_initial_implies_steady "main.go"
           (Some (regular 50 1001)) (tracking (fileRecord "main.go" 50 1000))).
  reflexivity.
Defined.

(** The converse fails: a file that shrank or grew at an older mtime is
    uploaded by the steady state only. *)
Example shouldUpload_steady_not_initial :
  shouldUpload "main.go" (Some (regular 55 999))
    (tracking (fileRecord "main.go" 50 1000)) false = true
  /\ shouldUpload "main.go" (Some (regular 55 999))
       (tracking (fileRecord "main.go" 50 1000)) true = false.
Proof. split; vm_compute; reflexivity. Qed.

(** X4. [shouldRemoveLocal] logs nothing when it answers true, and it
    refuses without a diagnostic in two cases only: the local path does not
    exist, or the stat succeeded and the path has no entry to compare with
    (no stat result or no tracked record). *)
Theorem shouldRemoveLocal_silent_refusals
    (Stat : os.StatFn) (absFilepath : string)
    (fileInformation : option FileInformation) (s : Sync) :
  (fst (shouldRemoveLocalLog Stat absFilepath fileInformation s) = true ->
   snd (shouldRemoveLocalLog Stat absFilepath fileInformation s) = [])
  /\ (shouldRemoveLocalLog Stat absFilepath fileInformation s = (false, [])
      <-> exists snap, fileInformation = Some snap
          /\ ((exists stat, Stat absFilepath = (stat, Some os.ErrNotExist))
              \/ (exists stat, Stat absFilepath = (stat, None)
                  /\ (stat = None \/ tracked s (Name snap) = None)))).
Proof.
  unfold shouldRemoveLocalLog.
  destruct fileInformation as [snap|].
  2:{ split; [discriminate|]. split; [discriminate|].
      intros (snap & Hsnap & _). discriminate. }
  destruct (Stat absFilepath) as [stat [err|]] eqn:Hstat.
  { destruct err as [|msg]; simpl; (split; [discriminate|]); split.
    - intros _. exists snap. split; [reflexivity|]. left. eauto.
    - reflexivity.
    - discriminate.
    - intros (snap' & _ & [(st & Hst)|(st & Hst & _)]); discriminate. }
  destruct stat as [stat|].
  2:{ split; [discriminate|]. split; [|reflexivity].
      intros _. exists snap. split; [reflexivity|]. right. eauto. }
  destruct (tracked s (Name snap)) as [rec|] eqn:Hrec.
  2:{ split; [discriminate|]. split; [|reflexivity].
      intros _. exists snap. split; [reflexivity|]. right. eauto. }
  assert (Hno : ~ exists snap', Some snap = Some snap'
            /\ ((exists st, (Some stat, @None os.Error) = (st, Some os.ErrNotExist))
                \/ (exists st, (Some stat, @None os.Error) = (st, None)
                    /\ (st = None \/ tracked s (Name snap') = None)))).
  { intros (snap' & [= <-] & [(st & Hst)|(st & [= <-] & [Hst|Hst])]);
      [discriminate Hst|discriminate Hst|congruence]. }
  destruct (negb (eqb (os.IsDir stat) (IsDirectory rec))
            || negb (eqb (os.IsDir stat) (IsDirectory snap))).
  { split; [discriminate|]. split; [discriminate|]. intros H. tauto. }
  destruct (negb (IsDirectory snap)).
  2:{ split; [reflexivity|]. split; [discriminate|]. intros H. tauto. }
  destruct ((Mtime snap =? Mtime rec) && (Size snap =? Size rec)).
  2:{ split; [discriminate|]. split; [discriminate|]. intros H. tauto. }
  destruct (os.ModTimeUnix stat <=? Mtime snap).
  - split; [reflexivity|]. split; [discriminate|]. intros H. tauto.
  - split; [discriminate|]. split; [discriminate|]. intros H. tauto.
Qed.

Lemma shouldRemoveLocal_silent_refusals_witness :
  snd (shouldRemoveLocalLog (diskWith (regular 10 500)) "/app/main.go"
         (Some (fileRecord "main.go" 10 500))
         (tracking (fileRecord "main.go" 10 500))) = [].
Proof.
  apply (proj1 (shouldRemoveLocal_silent_refusals
                  (diskWith (regular 10 500)) "/app/main.go"
                  (Some (fileRecord "main.go" 10 500))
                  (tracking (fileRecord "main.go" 10 500)))).
  vm_compute. reflexivity.
Defined.

End SyncMore.

(** * Further properties of [startServices] *)

Module DevMore.
Import Dev DevFixtures DevTrace.

Lemma startServices_stages (cmd : DevCmd) (config : Config) (w : World) :
  startServices cmd config w
  = pfStage cmd w (syncStage cmd w (watchStage cmd w
                                      (attachStage cmd config w))).
Proof. reflexivity. Qed.

Lemma attachStage_below (cmd : DevCmd) (config : Config) (w : World) :
  below 1 (fst (attachStage cmd config w)) = true.
Proof.
  unfold attachStage, waitExit.
  destruct (Terminal cmd && terminalEnabled config); [reflexivity|].
  destruct (StartAttach w) as [[|msg]|], (exitChan w); reflexivity.
Qed.

Lemma deferring_outcome (deferred : list Event) (body : Run) :
  snd (deferring deferred body) = snd body.
Proof. destruct body as [tr [err|]]; reflexivity. Qed.

Lemma deferring_trace (deferred : list Event) (body : Run)
    (err : option error) :
  snd body = Returned err ->
  fst (deferring deferred body) = fst body ++ deferred.
Proof. destruct body as [tr [e|]]; [reflexivity|discriminate]. Qed.

Lemma pfStage_outcome (cmd : DevCmd) (w : World) (rest : Run) :
  (Portforwarding cmd = true -> snd (StartPortForwarding w) = None) ->
  snd (pfStage cmd w rest) = snd rest.
Proof.
  unfold pfStage. destruct (Portforwarding cmd); [|reflexivity].
  intros Hok. destruct (StartPortForwarding w) as [pfs [err|]].
  - specialize (Hok eq_refl). discriminate Hok.
  - simpl. apply deferring_outcome.
Qed.

Lemma syncStage_outcome (cmd : DevCmd) (w : World) (rest : Run) :
  (Sync cmd = true -> snd (StartSync w) = None) ->
  snd (syncStage cmd w rest) = snd rest.
Proof.
  unfold syncStage. destruct (Sync cmd); [|reflexivity].
  intros Hok. destruct (StartSync w) as [scs [err|]].
  - specialize (Hok eq_refl). discriminate Hok.
  - simpl. apply deferring_outcome.
Qed.

Lemma pfStage_trace (cmd : DevCmd) (w : World) (rest : Run)
    (err : option error) :
  (Portforwarding cmd = true -> snd (StartPortForwarding w) = None) ->
  snd rest = Returned err ->
  fst (pfStage cmd w rest)
  = (if Portforwarding cmd then [CallStartPortForwarding] else [])
    ++ fst rest ++ closes cmd w.
Proof.
  unfold pfStage, closes. destruct (Portforwarding cmd).
  - intros Hok Hret. destruct (StartPortForwarding w) as [pfs [e|]].
    + specialize (Hok eq_refl). discriminate Hok.
    + simpl. rewrite (deferring_trace _ _ err Hret). reflexivity.
  - intros _ _. simpl. rewrite app_nil_r. reflexivity.
Qed.

Lemma syncStage_trace (cmd : DevCmd) (w : World) (rest : Run)
    (err : option error) :
  (Sync cmd = true -> snd (StartSync w) = None) ->
  snd rest = Returned err ->
  fst (syncStage cmd w rest)
  = (if Sync cmd then [CallStartSync] else []) ++ fst rest ++ stops cmd w.
Proof.
  unfold syncStage, stops. destruct (Sync cmd).
  - intros Hok Hret. destruct (StartSync w) as [scs [e|]].
    + specialize (Hok eq_refl). discriminate Hok.
    + simpl. rewrite (deferring_trace _ _ err Hret). reflexivity.
  - intros _ _. simpl. rewrite app_nil_r. reflexivity.
Qed.

(** The trace of a run that returned with both services started. *)
Lemma started_trace (cmd : DevCmd) (w : World) (rest : Run)
    (err : option error) :
  servicesStart cmd w ->
  snd rest = Returned err ->
  fst (pfStage cmd w (syncStage cmd w rest))
  = starts cmd ++ fst rest ++ stops cmd w ++ closes cmd w.
Proof.
  intros [Hpf Hsync] Hret.
  assert (Hret' : snd (syncStage cmd w rest) = Returned err).
  { rewrite (syncStage_outcome cmd w rest Hsync). exact Hret. }
  rewrite (pfStage_trace cmd w _ err Hpf Hret').
  rewrite (syncStage_trace cmd w rest err Hsync Hret).
  unfold starts. rewrite <- !app_assoc. reflexivity.
Qed.

Lemma started_outcome (cmd : DevCmd) (w : World) (rest : Run) :
  servicesStart cmd w ->
  snd (pfStage cmd w (syncStage cmd w rest)) = snd rest.
Proof.
  intros [Hpf Hsync].
  rewrite (pfStage_outcome cmd w _ Hpf). apply syncStage_outcome, Hsync.
Qed.

Lemma below_mono (n m : nat) (tr : list Event) :
  (n <= m)%nat -> below n tr = true -> below m tr = true.
Proof.
  intros Hle. unfold below. rewrite !forallb_forall.
  intros H ev Hin. specialize (H ev Hin).
  apply Nat.ltb_lt in H. apply Nat.ltb_lt. lia.
Qed.

Lemma below_app (n : nat) (tr1 tr2 : list Event) :
  below n (tr1 ++ tr2) = below n tr1 && below n tr2.
Proof. apply forallb_app. Qed.

(** X5. When port forwarding and sync started and [startServices]
    returns, it has torn everything down in the reverse order of the
    start-up: its calls end with the [Stop(nil)] of every sync session
    followed by the [Close] of every port forwarder, and a watcher that was
    started was stopped just before them. *)
Theorem startServices_teardown_order
    (cmd : DevCmd) (config : Config) (w : World) (err : option error) :
  servicesStart cmd w ->
  snd (startServices cmd config w) = Returned err ->
  exists during,
    fst (startServices cmd config w)
    = starts cmd ++ during ++ stops cmd w ++ closes cmd w
    /\ below 2 during = true
    /\ (In CallWatcherStart during ->
        exists body, during = [CallWatchNew (GetPaths w); CallWatcherStart]
                              ++ body ++ [CallWatcherStop]
                     /\ below 1 body = true).
Proof.
  intros Hstart. rewrite startServices_stages.
  rewrite (started_outcome cmd w _ Hstart). intros Hret.
  rewrite (started_trace cmd w _ err Hstart Hret).
  exists (fst (watchStage cmd w (attachStage cmd config w))).
  split; [reflexivity|].
  pose proof (attachStage_below cmd config w) as Hattach.
  revert Hret. unfold watchStage.
  destruct (negb (SkipPipeline cmd) && (0 <? length (GetPaths w))%nat).
  - destruct (watchNew w) as [werr|]; simpl.
    + intros _. split; [reflexivity|].
      intros [H|[]]. discriminate H.
    + rewrite deferring_outcome. intros Hret.
      rewrite (deferring_trace _ _ err Hret). split.
      * change (below 2 (fst (attachStage cmd config w) ++ [CallWatcherStop])
                = true).
        rewrite below_app, (below_mono 1 2 _ (le_S _ _ (le_n 1)) Hattach).
        reflexivity.
      * intros _. exists (fst (attachStage cmd config w)). auto.
  - intros _. split.
    + exact (below_mono 1 2 _ (le_S _ _ (le_n 1)) Hattach).
    + intros Hin. exfalso. unfold below in Hattach.
      rewrite forallb_forall in Hattach. specialize (Hattach _ Hin).
      discriminate Hattach.
Qed.

Lemma startServices_teardown_order_witness :
  exists during,
    fst (startServices defaults emptyConfig allFine)
    = starts defaults ++ during ++ stops defaults allFine
      ++ closes defaults allFine
    /\ below 2 during = true
    /\ (In CallWatcherStart during ->
        exists body, during = [CallWatchNew (GetPaths allFine);
                               CallWatcherStart]
                              ++ body ++ [CallWatcherStop]
                     /\ below 1 body = true).
Proof.
  apply (startServices_teardown_order defaults emptyConfig allFine None).
  - split; reflexivity.
  - reflexivity.
Defined.

(** X6. With the services started (and the watcher, where one is
    created), what [startServices] returns is decided by the last stage
    alone: the terminal's own result when the terminal is on; otherwise a
    reload error of the attach at once, and in every other case, a failed
    attach included, the value that arrives on the exit channel, for which
    it waits. *)
Theorem startServices_outcome
    (cmd : DevCmd) (config : Config) (w : World) :
  servicesStart cmd w ->
  (watches cmd w = true -> watchNew w = None) ->
  snd (startServices cmd config w)
  = if Terminal cmd && terminalEnabled config
    then Returned (StartTerminal w)
    else match StartAttach w with
         | Some reloadError => Returned (Some reloadError)
         | _ => match exitChan w with
                | Some v => Returned v
                | None => Blocked
                end
         end.
Proof.
  intros Hstart Hwatch. rewrite startServices_stages.
  rewrite (started_outcome cmd w _ Hstart).
  assert (Hrest : snd (watchStage cmd w (attachStage cmd config w))
                  = snd (attachStage cmd config w)).
  { unfold watchStage. fold (watches cmd w).
    destruct (watches cmd w); [|reflexivity].
    rewrite (Hwatch eq_refl). simpl. apply deferring_outcome. }
  rewrite Hrest. unfold attachStage, waitExit.
  destruct (Terminal cmd && terminalEnabled config); [reflexivity|].
  destruct (StartAttach w) as [[|msg]|], (exitChan w); reflexivity.
Qed.

Lemma startServices_outcome_witness :
  snd (startServices noTerminal emptyConfig allFine)
  = Returned (Some reloadError).
Proof.
  apply (startServices_outcome noTerminal emptyConfig allFine).
  - split; reflexivity.
  - reflexivity.
Defined.

(** X7. When the auto-reload watcher cannot be created, [startServices]
    returns the watcher's error as it is, after stopping the sync sessions
    and closing the port forwarders it had started; neither the terminal
    nor the attach is reached. *)
Theorem startServices_watcher_failure
    (cmd : DevCmd) (config : Config) (w : World) (err : error) :
  servicesStart cmd w ->
  watches cmd w = true ->
  watchNew w = Some err ->
  startServices cmd config w
  = (starts cmd ++ [CallWatchNew (GetPaths w)] ++ stops cmd w
       ++ closes cmd w,
     Returned (Some err)).
Proof.
  intros Hstart Hwatches Herr. rewrite startServices_stages.
  set (rest := watchStage cmd w (attachStage cmd config w)).
  assert (Hrest : rest = ([CallWatchNew (GetPaths w)], Returned (Some err))).
  { unfold rest, watchStage. fold (watches cmd w).
    rewrite Hwatches, Herr. reflexivity. }
  apply injective_projections.
  - rewrite (started_trace cmd w rest (Some err) Hstart);
      rewrite Hrest; reflexivity.
  - rewrite (started_outcome cmd w rest Hstart), Hrest. reflexivity.
Qed.

Lemma startServices_watcher_failure_witness :
  startServices defaults emptyConfig
    {| StartPortForwarding := ([ {| pfId := 0 |} ], None);
       StartSync := ([ {| syncId := 0 |} ], None);
       GetPaths := ["Dockerfile"];
       watchNew := Some (errorString "too many open files");
       StartTerminal := None; StartAttach := None; exitChan := None |}
  = ([CallStartPortForwarding; CallStartSync; CallWatchNew ["Dockerfile"];
      CallStop {| syncId := 0 |} None; CallClose {| pfId := 0 |}],
     Returned (Some (errorString "too many open files"))).
Proof.
  apply (startServices_watcher_failure defaults emptyConfig
           {| StartPortForwarding := ([ {| pfId := 0 |} ], None);
              StartSync := ([ {| syncId := 0 |} ], None);
              GetPaths := ["Dockerfile"];
              watchNew := Some (errorString "too many open files");
              StartTerminal := None; StartAttach := None;
              exitChan := None |}
           (errorString "too many open files")).
  - split; reflexivity.
  - reflexivity.
  - reflexivity.
Defined.

Lemma without_app (n : nat) (tr1 tr2 : list Event) :
  without n (tr1 ++ tr2) = without n tr1 && without n tr2.
Proof. apply forallb_app. Qed.

Lemma without_deferring (n : nat) (deferred : list Event) (body : Run) :
  without n deferred = true -> without n (fst body) = true ->
  without n (fst (deferring deferred body)) = true.
Proof.
  destruct body as [tr [err|]]; simpl; [|auto].
  intros Hd Hb. rewrite without_app, Hd, Hb. reflexivity.
Qed.

Lemma without_cons (n : nat) (ev : Event) (tr : list Event) :
  layer ev <> n -> without n tr = true -> without n (ev :: tr) = true.
Proof.
  intros Hev Htr. unfold without in *. cbn [forallb]. rewrite Htr.
  destruct (Nat.eqb_spec (layer ev) n); [contradiction|reflexivity].
Qed.

Lemma without_after (n : nat) (ev : Event) (body : Run) :
  layer ev <> n -> without n (fst body) = true ->
  without n (fst (after [ev] body)) = true.
Proof. intros Hev Hb. apply without_cons; assumption. Qed.

Lemma without_closes (n : nat) (l : list PortForwarder) :
  n <> 3%nat -> without n (map CallClose l) = true.
Proof.
  intros Hn. induction l as [|v l IH]; [reflexivity|].
  cbn [map]. apply without_cons; [cbn [layer]; lia|exact IH].
Qed.

Lemma without_stops (n : nat) (l : list SyncConfig) :
  n <> 2%nat -> without n (map (fun v => CallStop v None) l) = true.
Proof.
  intros Hn. induction l as [|v l IH]; [reflexivity|].
  cbn [map]. apply without_cons; [cbn [layer]; lia|exact IH].
Qed.

Lemma without_attach (n : nat) (cmd : DevCmd) (config : Config) (w : World) :
  n <> 0%nat -> without n (fst (attachStage cmd config w)) = true.
Proof.
  intros Hn. pose proof (attachStage_below cmd config w) as Hb.
  unfold below, without in *. rewrite forallb_forall in *.
  intros ev Hin. specialize (Hb ev Hin). apply Nat.ltb_lt in Hb.
  destruct (Nat.eqb_spec (layer ev) n); [lia|reflexivity].
Qed.

(** X8. A service that is switched off is never touched: without
    [--portforwarding] no port forwarding is started or closed, without
    [--sync] no sync is started or stopped, and with [--skip-pipeline], or
    with no path to watch, no watcher is created, started or stopped. *)
Theorem startServices_skips_disabled
    (cmd : DevCmd) (config : Config) (w : World) :
  (Portforwarding cmd = false ->
   without 3 (fst (startServices cmd config w)) = true)
  /\ (Sync cmd = false ->
      without 2 (fst (startServices cmd config w)) = true)
  /\ (watches cmd w = false ->
      without 1 (fst (startServices cmd config w)) = true).
Proof.
  rewrite startServices_stages.
  assert (Hstages : forall n : nat,
            n <> 0%nat ->
            (n = 3%nat -> Portforwarding cmd = false) ->
            (n = 2%nat -> Sync cmd = false) ->
            (n = 1%nat -> watches cmd w = false) ->
            without n (fst (pfStage cmd w (syncStage cmd w (watchStage cmd w
                         (attachStage cmd config w))))) = true).
  { intros n Hn Hpf Hsync Hwatch.
    pose proof (without_attach n cmd config w Hn) as Hattach.
    assert (Hw : without n (fst (watchStage cmd w
                                   (attachStage cmd config w))) = true).
    { unfold watchStage. fold (watches cmd w).
      destruct (watches cmd w); [|exact Hattach].
      assert (Hn1 : n <> 1%nat) by (intros ->; discriminate (Hwatch eq_refl)).
      apply without_after; [cbn [layer]; lia|].
      destruct (watchNew w); [reflexivity|].
      apply without_after; [cbn [layer]; lia|].
      apply without_deferring; [|exact Hattach].
      apply without_cons; [cbn [layer]; lia|reflexivity]. }
    assert (Hs : without n (fst (syncStage cmd w (watchStage cmd w
                                   (attachStage cmd config w)))) = true).
    { unfold syncStage. destruct (Sync cmd); [|exact Hw].
      assert (Hn2 : n <> 2%nat) by (intros ->; discriminate (Hsync eq_refl)).
      apply without_after; [cbn [layer]; lia|].
      destruct (StartSync w) as [scs [e|]]; [reflexivity|].
      apply without_deferring; [apply without_stops, Hn2|exact Hw]. }
    unfold pfStage. destruct (Portforwarding cmd); [|exact Hs].
    assert (Hn3 : n <> 3%nat) by (intros ->; discriminate (Hpf eq_refl)).
    apply without_after; [cbn [layer]; lia|].
    destruct (StartPortForwarding w) as [pfs [e|]]; [reflexivity|].
    apply without_deferring; [apply without_closes, Hn3|exact Hs]. }
  repeat split; intros Hoff; apply Hstages; intros; try lia; auto;
    discriminate.
Qed.

Lemma startServices_skips_disabled_witness :
  without 2 (fst (startServices
                    {| Portforwarding := true; Sync := false;
                       SkipPipeline := true; Terminal := true;
                       Selector := ""; Container := ""; LabelSelector := "";
                       Namespace := "" |} emptyConfig allFine)) = true.
Proof.
  apply (proj1 (proj2 (startServices_skips_disabled
           {| Portforwarding := true; Sync := false;
              SkipPipeline := true; Terminal := true;
              Selector := ""; Container := ""; LabelSelector := "";
              Namespace := "" |} emptyConfig allFine))).
  reflexivity.
Defined.

End DevMore.

(** * Further properties of [ExecBuffered] *)

Module KubectlMore.
Import Kubectl KubectlFixtures KubectlSpec.

(** Rewrites the lookups a run of the file operations leaves behind. *)
Ltac map_step :=
  first [ rewrite lookup_insert_eq
        | rewrite lookup_insert_ne by (congruence || lia)
        | rewrite drop_nil | rewrite app_nil_r | rewrite drop_all ].

Ltac run_files :=
  unfold ExecBuffered, deferring, readBack, ExecStream, TempFile, Write,
    Close, Open, ReadFrom, readAll, Remove, allocate, logOp, setDescriptor,
    setFiles, bind, ret, get, modify.

(** Two fresh captures, created and removed again, leave the files as they
    were. *)
Lemma captures_removed (fs : gmap string (list Byte.byte)) (n1 n2 : string)
    (a b c d : list Byte.byte) :
  fs !! n1 = None -> fs !! n2 = None ->
  delete n1 (delete n2 (<[n2:=a]> (<[n1:=b]> (<[n2:=c]> (<[n1:=d]> fs)))))
  = fs.
Proof.
  intros F1 F2. apply map_eq. intros k.
  destruct (decide (k = n1)) as [->|Hk1].
  { rewrite lookup_delete_eq. auto. }
  rewrite lookup_delete_ne by auto.
  destruct (decide (k = n2)) as [->|Hk2].
  { rewrite lookup_delete_eq. auto. }
  rewrite lookup_delete_ne by auto.
  rewrite !lookup_insert_ne by auto. reflexivity.
Qed.

(** The whole of a run in which the system fails nothing and the command
    ends normally or with an exit code. *)
Lemma ExecBuffered_success (w : World) (s : OS) (n1 n2 : string) :
  tempFile1 w = inl n1 -> tempFile2 w = inl n2 ->
  files s !! n1 = None -> files s !! n2 = None -> n1 <> n2 ->
  openFails1 w = None -> readFails1 w = None ->
  openFails2 w = None -> readFails2 w = None ->
  (forall err, execResult w = Some err -> isCodeExitError err = true) ->
  exists tbl,
    ExecBuffered w s
    = ((remoteStdout w, [], execResult w),
       {| files := files s; table := tbl;
          nextFd := S (S (S (S (nextFd s))));
          oplog := oplog s ++
            [OpTempFile n1; OpTempFile n2;
             OpExecStream {| fd := nextFd s; Name := n1 |}
                          {| fd := S (nextFd s); Name := n2 |};
             OpClose {| fd := nextFd s; Name := n1 |};
             OpClose {| fd := S (nextFd s); Name := n2 |};
             OpOpen n1;
             OpReadFrom {| fd := S (S (nextFd s)); Name := n1 |}
                        (remoteStdout w);
             OpOpen n1;
             OpReadFrom {| fd := S (S (nextFd s)); Name := n1 |} [];
             OpRemove n2; OpRemove n1] |})
    /\ tbl !! S (S (nextFd s))
       = Some {| path := n1; offset := length (remoteStdout w);
                 closed := false |}
    /\ tbl !! S (S (S (nextFd s)))
       = Some {| path := n1; offset := 0%nat; closed := false |}.
Proof.
  intros H1 H2 F1 F2 Hne O1 R1 O2 R2 HE.
  run_files. rewrite H1, H2, O1, R1, O2, R2. simpl.
  rewrite F1. simpl. rewrite lookup_insert_ne, F2 by done.
  destruct (execResult w) as [err|] eqn:Hres.
  - pose proof (HE err eq_refl) as Hexit.
    repeat (simpl; first [map_step | rewrite Hexit]).
    rewrite (captures_removed _ _ _ _ _ _ _ F1 F2).
    rewrite <- !app_assoc. simpl.
    eexists. split; [reflexivity|].
    split; repeat map_step; reflexivity.
  - repeat (simpl; map_step).
    rewrite (captures_removed _ _ _ _ _ _ _ F1 F2).
    rewrite <- !app_assoc. simpl.
    eexists. split; [reflexivity|].
    split; repeat map_step; reflexivity.
Qed.

(** X9. When the system fails nothing and the remote command ends
    normally or with an exit code, [ExecBuffered] returns exactly what the
    command wrote to stdout, together with the command's own error. *)
Theorem ExecBuffered_returns_stdout (w : World) (s : OS) (n1 n2 : string) :
  tempFile1 w = inl n1 -> tempFile2 w = inl n2 ->
  files s !! n1 = None -> files s !! n2 = None -> n1 <> n2 ->
  openFails1 w = None -> readFails1 w = None ->
  openFails2 w = None -> readFails2 w = None ->
  (forall err, execResult w = Some err -> isCodeExitError err = true) ->
  stdoutOf (fst (ExecBuffered w s)) = remoteStdout w
  /\ errorOf (fst (ExecBuffered w s)) = execResult w.
Proof.
  intros H1 H2 F1 F2 Hne O1 R1 O2 R2 HE.
  destruct (ExecBuffered_success w s n1 n2 H1 H2 F1 F2 Hne O1 R1 O2 R2 HE)
    as (tbl & -> & _). split; reflexivity.
Qed.

Lemma ExecBuffered_returns_stdout_witness :
  stdoutOf (fst (ExecBuffered failingCommand boot))
  = remoteStdout failingCommand
  /\ errorOf (fst (ExecBuffered failingCommand boot))
     = execResult failingCommand.
Proof.
  apply (ExecBuffered_returns_stdout failingCommand boot
           "/tmp/001" "/tmp/002"); try reflexivity.
  - discriminate.
  - intros err [= <-]. reflexivity.
Defined.




(** X12. An error of the stream that is no exit code is returned as it is,
    with no output: the captures are removed unread, without being closed
    or reopened. *)
Theorem ExecBuffered_stream_error
    (w : World) (s : OS) (n1 n2 : string) (err : error) :
  tempFile1 w = inl n1 -> tempFile2 w = inl n2 ->
  files s !! n1 = None -> files s !! n2 = None -> n1 <> n2 ->
  execResult w = Some err -> isCodeExitError err = false ->
  fst (ExecBuffered w s) = ([], [], Some err)
  /\ oplog (snd (ExecBuffered w s))
     = oplog s ++ [OpTempFile n1; OpTempFile n2;
                   OpExecStream {| fd := nextFd s; Name := n1 |}
                                {| fd := S (nextFd s); Name := n2 |};
                   OpRemove n2; OpRemove n1].
Proof.
  intros H1 H2 F1 F2 Hne Hres Hexit.
  run_files. rewrite H1, H2, Hres. simpl.
  rewrite F1. simpl. rewrite lookup_insert_ne, F2 by done.
  repeat (simpl; first [map_step | rewrite Hexit]). simpl.
  repeat (simpl; map_step). simpl.
  rewrite <- !app_assoc. split; reflexivity.
Qed.

Lemma ExecBuffered_stream_error_witness :
  fst (ExecBuffered
         {| tempFile1 := inl "/tmp/001"; tempFile2 := inl "/tmp/002";
            remoteStdout := [Byte.x6f]; remoteStderr := [];
            execResult := Some (StreamError "connection reset");
            openFails1 := None; readFails1 := None;
            openFails2 := None; readFails2 := None |} boot)
  = ([], [], Some (StreamError "connection reset")).
Proof.
  apply (proj1 (ExecBuffered_stream_error
           {| tempFile1 := inl "/tmp/001"; tempFile2 := inl "/tmp/002";
              remoteStdout := [Byte.x6f]; remoteStderr := [];
              execResult := Some (StreamError "connection reset");
              openFails1 := None; readFails1 := None;
              openFails2 := None; readFails2 := None |} boot
           "/tmp/001" "/tmp/002" (StreamError "connection reset")
           eq_refl eq_refl eq_refl eq_refl ltac:(discriminate)
           eq_refl eq_refl)).
Defined.

End KubectlMore.

(** * Properties of [validate], [GetSelector], [askQuestions] and
    [GetDefaultNamespace] *)

Module ConfigutilSpec.
Import latest Configutil ConfigFixtures.

Lemma firstError_none (checks : list (option error)) :
  firstError checks = None <-> Forall (fun c => c = None) checks.
Proof.
  induction checks as [|[err|] checks IH]; simpl.
  - split; auto.
  - split; [discriminate|]. intros H. inversion H. discriminate.
  - rewrite IH. split; [auto|]. intros H. inversion H. assumption.
Qed.

Lemma rangeFrom_none {A : Type} (P : A -> bool)
    (check : nat -> A -> option error) :
  (forall i x, check i x = None <-> P x = true) ->
  forall l i, rangeFrom i check l = None
              <-> Forall (fun x => P x = true) l.
Proof.
  intros Hcheck. induction l as [|x l IH]; intros i; simpl.
  - split; auto.
  - destruct (check i x) eqn:Hx.
    + split; [discriminate|]. intros H. inversion H as [|? ? Hp _]; subst.
      apply Hcheck with (i := i) in Hp. congruence.
    + rewrite IH. split.
      * intros H. constructor; [|exact H]. apply (Hcheck i). exact Hx.
      * intros H. inversion H. assumption.
Qed.

Lemma rangePtr_none {A : Type} (P : A -> bool)
    (check : nat -> A -> option error) (p : option (list A)) :
  (forall i x, check i x = None <-> P x = true) ->
  rangePtr check p = None <-> every P p.
Proof.
  intros Hcheck. unfold rangePtr, every. destruct p as [l|].
  - rewrite (rangeFrom_none P check Hcheck). split.
    + intros H l' [= <-]. exact H.
    + intros H. apply H. reflexivity.
  - split; [discriminate|reflexivity].
Qed.

(** The loop stops at the first entry that fails its check. *)
Lemma rangeFrom_first {A : Type} (check : nat -> A -> option error)
    (good : list A) (bad : A) (rest : list A) (err : error) :
  forall i,
    Forall (fun x => forall j, check j x = None) good ->
    check (i + length good)%nat bad = Some err ->
    rangeFrom i check (good ++ bad :: rest) = Some err.
Proof.
  induction good as [|x good IH]; intros i Hgood Hbad; simpl.
  - rewrite Nat.add_0_r in Hbad. simpl in Hbad. rewrite Hbad. reflexivity.
  - inversion Hgood as [|? ? Hx Hrest]; subst. rewrite Hx.
    apply IH; [exact Hrest|].
    simpl in Hbad. rewrite Nat.add_succ_r in Hbad. exact Hbad.
Qed.

Lemma checkSelector_none (i : nat) (s : SelectorConfig.t) :
  checkSelector i s = None <-> negb (isNil (SelectorConfig.Name s)) = true.
Proof.
  unfold checkSelector. destruct (SelectorConfig.Name s); simpl;
    split; congruence.
Qed.

Lemma checkPort_none (i : nat) (port : PortForwardingConfig.t) :
  checkPort i port = None <-> okPort port = true.
Proof.
  unfold checkPort, okPort.
  destruct (PortForwardingConfig.Selector port),
    (PortForwardingConfig.LabelSelector port),
    (PortForwardingConfig.PortMappings port); simpl; split; congruence.
Qed.

Lemma checkSync_none (i : nat) (sync : SyncConfig.t) :
  checkSync i sync = None <-> okSync sync = true.
Proof.
  unfold checkSync, okSync.
  destruct (SyncConfig.Selector sync), (SyncConfig.LabelSelector sync);
    simpl; split; congruence.
Qed.

Lemma checkOverrideImage_none (i : nat) (o : ImageOverrideConfig.t) :
  checkOverrideImage i o = None
  <-> negb (isNil (ImageOverrideConfig.Name o)) = true.
Proof.
  unfold checkOverrideImage. destruct (ImageOverrideConfig.Name o); simpl;
    split; congruence.
Qed.

Lemma checkHook_none (i : nat) (h : HookConfig.t) :
  checkHook i h = None <-> negb (isNil (HookConfig.Command h)) = true.
Proof.
  unfold checkHook. destruct (HookConfig.Command h); simpl; split; congruence.
Qed.

Lemma checkImage_none (i : nat) (e : string * ImageConfig.t) :
  checkImage i e = None <-> negb (customWithoutCommand (snd e)) = true.
Proof.
  unfold checkImage. destruct e as [name conf]. simpl.
  destruct (customWithoutCommand conf); simpl; split; congruence.
Qed.

Lemma checkDeployment_none (i : nat) (d : DeploymentConfig.t) :
  checkDeployment i d = None <-> okDeployment d = true.
Proof.
  unfold checkDeployment, okDeployment.
  destruct (DeploymentConfig.Name d); simpl; [|split; congruence].
  destruct (isNil (DeploymentConfig.Helm d)
            && isNil (DeploymentConfig.Kubectl d)
            && isNil (DeploymentConfig.Component d)); simpl;
    [split; congruence|].
  destruct (helmWithoutChartName d); simpl; [split; congruence|].
  destruct (kubectlWithoutManifests d); simpl; split; congruence.
Qed.

(** The [Dev] part of [validate]. *)
Lemma dev_checks_none (dev : DevConfig.t) :
  firstError
    [ rangePtr checkSelector (DevConfig.Selectors dev);
      rangePtr checkPort (DevConfig.Ports dev);
      rangePtr checkSync (DevConfig.Sync dev);
      rangePtr checkOverrideImage (DevConfig.OverrideImages dev) ] = None
  <-> every (fun s => negb (isNil (SelectorConfig.Name s)))
            (DevConfig.Selectors dev)
      /\ every okPort (DevConfig.Ports dev)
      /\ every okSync (DevConfig.Sync dev)
      /\ every (fun o => negb (isNil (ImageOverrideConfig.Name o)))
               (DevConfig.OverrideImages dev).
Proof.
  rewrite firstError_none.
  rewrite <- (rangePtr_none _ checkSelector _ checkSelector_none).
  rewrite <- (rangePtr_none _ checkPort _ checkPort_none).
  rewrite <- (rangePtr_none _ checkSync _ checkSync_none).
  rewrite <- (rangePtr_none _ checkOverrideImage _ checkOverrideImage_none).
  split.
  - intros H. inversion H as [|? ? H1 H']; subst.
    inversion H' as [|? ? H2 H'']; subst.
    inversion H'' as [|? ? H3 H''']; subst.
    inversion H''' as [|? ? H4 _]; subst. auto.
  - intros (H1 & H2 & H3 & H4). repeat constructor; assumption.
Qed.

Lemma validate_none (config : Config.t) :
  validate config = None <-> wellFormed config.
Proof.
  unfold validate, wellFormed. rewrite firstError_none.
  rewrite <- (rangePtr_none _ checkHook _ checkHook_none).
  rewrite <- (rangePtr_none _ checkImage _ checkImage_none).
  rewrite <- (rangePtr_none _ checkDeployment _ checkDeployment_none).
  split.
  - intros H. inversion H as [|? ? H1 H']; subst.
    inversion H' as [|? ? H2 H'']; subst.
    inversion H'' as [|? ? H3 H''']; subst.
    inversion H''' as [|? ? H4 _]; subst.
    repeat split; try assumption;
      destruct (Config.Dev config) as [dev'|]; try discriminate;
      match goal with Heq : Some _ = Some _ |- _ => injection Heq as <- end;
      apply dev_checks_none in H1; tauto.
  - intros (Hdev & H2 & H3 & H4). repeat constructor; try assumption.
    destruct (Config.Dev config) as [dev|]; [|reflexivity].
    apply dev_checks_none. apply Hdev. reflexivity.
Qed.


(** X14. An unnamed selector is reported with the index of the first one,
    whatever else is wrong with the config: the selectors are checked
    first. *)
Theorem validate_first_unnamed_selector
    (config : Config.t) (dev : DevConfig.t)
    (named : list SelectorConfig.t) (unnamed : SelectorConfig.t)
    (rest : list SelectorConfig.t) :
  Config.Dev config = Some dev ->
  DevConfig.Selectors dev = Some (named ++ unnamed :: rest) ->
  Forall (fun s => SelectorConfig.Name s <> None) named ->
  SelectorConfig.Name unnamed = None ->
  validate config
  = Some ("Error in config: Unnamed selector at index "
          +:+ itoa (length named)).
Proof.
  intros Hdev Hsel Hnamed Hunnamed. unfold validate.
  rewrite Hdev, Hsel. unfold rangePtr.
  rewrite (rangeFrom_first checkSelector named unnamed rest
             ("Error in config: Unnamed selector at index "
              +:+ itoa (length named))).
  - reflexivity.
  - eapply Forall_impl; [exact Hnamed|]. intros s Hs j.
    unfold checkSelector.
    destruct (SelectorConfig.Name s) eqn:Hname; [reflexivity|].
    contradiction.
  - unfold checkSelector. rewrite Hunnamed. reflexivity.
Qed.

Lemma validate_first_unnamed_selector_witness :
  validate (configOf (Some (devWith [selector (Some "web"); selector None;
                                     selector None]))
                     None (Some [untypedDeployment "api"]))
  = Some "Error in config: Unnamed selector at index 1".
Proof.
  apply (validate_first_unnamed_selector
           (configOf (Some (devWith [selector (Some "web"); selector None;
                                     selector None]))
                     None (Some [untypedDeployment "api"]))
           (devWith [selector (Some "web"); selector None; selector None])
           [selector (Some "web")] (selector None) [selector None]).
  - reflexivity.
  - reflexivity.
  - repeat constructor. discriminate.
  - reflexivity.
Defined.

(** X15. When everything before the deployments passes, the first
    deployment that fails its checks decides the error; one that has a name
    but is neither a helm, a kubectl nor a component deployment is reported
    by that name. *)
Theorem validate_untyped_deployment
    (config : Config.t) (good : list DeploymentConfig.t)
    (untyped : DeploymentConfig.t) (rest : list DeploymentConfig.t)
    (name : string) :
  validate (withDeployments None config) = None ->
  Config.Deployments config = Some (good ++ untyped :: rest) ->
  Forall (fun d => okDeployment d = true) good ->
  DeploymentConfig.Name untyped = Some name ->
  DeploymentConfig.Helm untyped = None ->
  DeploymentConfig.Kubectl untyped = None ->
  DeploymentConfig.Component untyped = None ->
  validate config
  = Some ("Please specify either component, helm or kubectl as deployment type in deployment "
          +:+ name).
Proof.
  intros Hbefore Hdeps Hgood Hname Hhelm Hkubectl Hcomponent.
  revert Hbefore. unfold validate, withDeployments.
  cbn [Config.Dev Config.Hooks Config.Images Config.Deployments].
  rewrite Hdeps.
  match goal with
  | |- firstError [?a; ?b; ?c; _] = None -> _ =>
    destruct a; [cbn [firstError]; discriminate|];
    destruct b; [cbn [firstError]; discriminate|];
    destruct c; [cbn [firstError]; discriminate|]
  end.
  intros _. cbn [firstError].
  unfold rangePtr. erewrite rangeFrom_first; [reflexivity| |].
  - eapply Forall_impl; [exact Hgood|]. intros d Hd j.
    apply checkDeployment_none. exact Hd.
  - unfold checkDeployment. rewrite Hname, Hhelm, Hkubectl, Hcomponent.
    reflexivity.
Qed.

Lemma validate_untyped_deployment_witness :
  validate (configOf None None
              (Some [helmDeployment "db" "stable/mysql";
                     untypedDeployment "api"]))
  = Some "Please specify either component, helm or kubectl as deployment type in deployment api".
Proof.
  apply (validate_untyped_deployment
           (configOf None None
              (Some [helmDeployment "db" "stable/mysql";
                     untypedDeployment "api"]))
           [helmDeployment "db" "stable/mysql"] (untypedDeployment "api") []
           "api"); try reflexivity.
  repeat constructor.
Defined.

(** X16. Whether [validate] accepts a config does not depend on the order
    in which the images map is visited; which image an error names does. *)
Theorem validate_image_order
    (config : Config.t) (images images' : list (string * ImageConfig.t)) :
  Permutation images images' ->
  (validate (withImages (Some images) config) = None
   <-> validate (withImages (Some images') config) = None).
Proof.
  intros Hperm. rewrite !validate_none. unfold wellFormed, withImages. simpl.
  assert (Himages : every (fun e => negb (customWithoutCommand (snd e)))
                      (Some images)
                    <-> every (fun e => negb (customWithoutCommand (snd e)))
                          (Some images')).
  { unfold every. split; intros H l [= <-].
    - rewrite <- Hperm. apply H. reflexivity.
    - rewrite Hperm. apply H. reflexivity. }
  tauto.
Qed.

Lemma validate_image_order_witness :
  validate (withImages (Some [("b", customImage (Some "make"));
                              ("a", customImage (Some "make"))])
              (configOf None None None)) = None
  <-> validate (withImages (Some [("a", customImage (Some "make"));
                                  ("b", customImage (Some "make"))])
                  (configOf None None None)) = None.
Proof.
  apply (validate_image_order (configOf None None None)
           [("b", customImage (Some "make")); ("a", customImage (Some "make"))]
           [("a", customImage (Some "make")); ("b", customImage (Some "make"))]).
  apply perm_swap.
Defined.

(** Two images without a command: the error names the one visited first. *)
Example validate_names_first_visited :
  validate (configOf None (Some [("a", customImage None);
                                 ("b", customImage None)]) None)
  = Some "images.a.build.custom.command is required"
  /\ validate (configOf None (Some [("b", customImage None);
                                    ("a", customImage None)]) None)
     = Some "images.b.build.custom.command is required".
Proof. split; reflexivity. Qed.

(** ** [GetSelector] *)

Lemma findSelector_found (l : list SelectorConfig.t) (selectorName : string)
    (sel : SelectorConfig.t) :
  findSelector l selectorName = Ok (Some sel)
  <-> exists before after,
        l = before ++ sel :: after
        /\ SelectorConfig.Name sel = Some selectorName
        /\ Forall (passedOver selectorName) before.
Proof.
  induction l as [|s l IH]; simpl.
  - split; [discriminate|]. intros ([|? ?] & after & Hl & _); discriminate.
  - destruct (SelectorConfig.Name s) as [n|] eqn:Hn.
    + destruct (String.eqb_spec n selectorName) as [->|Hne].
      * split.
        -- intros [= <-]. exists [], l. auto.
        -- intros ([|s' before] & after & Hl & Hname & Hbefore).
           ++ injection Hl as <- _. reflexivity.
           ++ injection Hl as <- _. inversion Hbefore as [|? ? Hs _]; subst.
              destruct Hs as (n' & Hn' & Hne'). congruence.
      * rewrite IH. split.
        -- intros (before & after & -> & Hname & Hbefore).
           exists (s :: before), after. repeat split; auto.
           constructor; [exists n; auto|exact Hbefore].
        -- intros ([|s' before] & after & Hl & Hname & Hbefore).
           ++ injection Hl as <- _. congruence.
           ++ injection Hl as <- ->. inversion Hbefore; subst.
              exists before, after. auto.
    + split; [discriminate|].
      intros ([|s' before] & after & Hl & Hname & Hbefore).
      * injection Hl as <- _. congruence.
      * injection Hl as <- _. inversion Hbefore as [|? ? Hs _]; subst.
        destruct Hs as (n' & Hn' & _). congruence.
Qed.

Lemma findSelector_missing (l : list SelectorConfig.t)
    (selectorName : string) :
  findSelector l selectorName = Ok None
  <-> Forall (passedOver selectorName) l.
Proof.
  induction l as [|s l IH]; simpl.
  - split; auto.
  - destruct (SelectorConfig.Name s) as [n|] eqn:Hn.
    + destruct (String.eqb_spec n selectorName) as [->|Hne].
      * split; [discriminate|]. intros H. inversion H as [|? ? Hs _]; subst.
        destruct Hs as (n' & Hn' & Hne'). congruence.
      * rewrite IH. split.
        -- intros H. constructor; [exists n; auto|exact H].
        -- intros H. inversion H. assumption.
    + split; [discriminate|]. intros H. inversion H as [|? ? Hs _]; subst.
      destruct Hs as (n' & Hn' & _). congruence.
Qed.

Lemma findSelector_panic (l : list SelectorConfig.t)
    (selectorName : string) :
  findSelector l selectorName = Panic
  <-> exists before unnamed after,
        l = before ++ unnamed :: after
        /\ SelectorConfig.Name unnamed = None
        /\ Forall (passedOver selectorName) before.
Proof.
  induction l as [|s l IH]; simpl.
  - split; [discriminate|].
    intros ([|? ?] & u & after & Hl & _); discriminate.
  - destruct (SelectorConfig.Name s) as [n|] eqn:Hn.
    + destruct (String.eqb_spec n selectorName) as [->|Hne].
      * split; [discriminate|].
        intros ([|s' before] & u & after & Hl & Hu & Hbefore).
        -- injection Hl as <- _. congruence.
        -- injection Hl as <- _. inversion Hbefore as [|? ? Hs _]; subst.
           destruct Hs as (n' & Hn' & Hne'). congruence.
      * rewrite IH. split.
        -- intros (before & u & after & -> & Hu & Hbefore).
           exists (s :: before), u, after. repeat split; auto.
           constructor; [exists n; auto|exact Hbefore].
        -- intros ([|s' before] & u & after & Hl & Hu & Hbefore).
           ++ injection Hl as <- _. congruence.
           ++ injection Hl as <- ->. inversion Hbefore; subst.
              exists before, u, after. auto.
    + split; [|reflexivity]. intros _. exists [], s, l. auto.
Qed.

(** X17. [GetSelector] returns a selector exactly when it is the first one
    of the config with the name looked for, every selector before it having
    another name. *)
Theorem GetSelector_first_match
    (config : Config.t) (selectorName : string) (sel : SelectorConfig.t) :
  GetSelector config selectorName = Ok (inl sel)
  <-> exists dev before after,
        Config.Dev config = Some dev
        /\ DevConfig.Selectors dev = Some (before ++ sel :: after)
        /\ SelectorConfig.Name sel = Some selectorName
        /\ Forall (passedOver selectorName) before.
Proof.
  unfold GetSelector. destruct (Config.Dev config) as [dev|].
  2:{ split; [discriminate|]. intros (dev & ? & ? & Hdev & _). discriminate. }
  destruct (DevConfig.Selectors dev) as [l|] eqn:Hl.
  2:{ split; [discriminate|].
      intros (dev' & ? & ? & [= <-] & Hsel & _). congruence. }
  pose proof (findSelector_found l selectorName sel) as Hfound.
  destruct (findSelector l selectorName) as [[found|]|].
  - split.
    + intros [= <-]. destruct (proj1 Hfound eq_refl) as (b & a & -> & H).
      exists dev, b, a. auto.
    + intros (dev' & b & a & [= <-] & Hsel & H). rewrite Hl in Hsel.
      injection Hsel as ->.
      assert (Heq : Ok (Some found) = Ok (Some sel)) by (apply Hfound; eauto).
      congruence.
  - split; [discriminate|].
    intros (dev' & b & a & [= <-] & Hsel & H). rewrite Hl in Hsel.
    injection Hsel as ->.
    assert (Heq : @Ok (option SelectorConfig.t) None = Ok (Some sel))
      by (apply Hfound; eauto).
    discriminate Heq.
  - split; [discriminate|].
    intros (dev' & b & a & [= <-] & Hsel & H). rewrite Hl in Hsel.
    injection Hsel as ->.
    assert (Heq : @Panic (option SelectorConfig.t) = Ok (Some sel))
      by (apply Hfound; eauto).
    discriminate Heq.
Qed.


(** X19. On a config that [validate] accepts and that has a [dev] section,
    [GetSelector] never dereferences nil, and it returns the error "Unable
    to find selector: ..." exactly when no selector has the name. *)
Theorem GetSelector_validated
    (config : Config.t) (dev : DevConfig.t) (selectorName : string) :
  validate config = None ->
  Config.Dev config = Some dev ->
  GetSelector config selectorName <> Panic
  /\ (GetSelector config selectorName
      = Ok (inr ("Unable to find selector: " +:+ selectorName))
      <-> forall l, DevConfig.Selectors dev = Some l ->
            Forall (fun s => SelectorConfig.Name s <> Some selectorName) l).
Proof.
  intros Hvalid Hdev. apply validate_none in Hvalid.
  destruct Hvalid as (Hdevok & _). destruct (Hdevok dev Hdev) as (Hnamed & _).
  unfold GetSelector. rewrite Hdev.
  destruct (DevConfig.Selectors dev) as [l|] eqn:Hl.
  2:{ split; [discriminate|]. split; [discriminate|reflexivity]. }
  specialize (Hnamed l eq_refl).
  assert (Hover : Forall (passedOver selectorName) l
                  <-> Forall (fun s => SelectorConfig.Name s
                                       <> Some selectorName) l).
  { rewrite !Forall_forall. split; intros H s Hin.
    - destruct (H s Hin) as (n & Hn & Hne). congruence.
    - rewrite Forall_forall in Hnamed. specialize (Hnamed s Hin).
      specialize (H s Hin).
      destruct (SelectorConfig.Name s) as [n|] eqn:Hn;
        [|discriminate Hnamed].
      exists n. split; [exact Hn|congruence]. }
  pose proof (findSelector_panic l selectorName) as Hpanic.
  pose proof (findSelector_missing l selectorName) as Hmissing.
  destruct (findSelector l selectorName) as [[found|]|].
  - split; [discriminate|]. split; [discriminate|].
    intros H. specialize (H l eq_refl). apply Hover, Hmissing in H.
    discriminate H.
  - split; [discriminate|]. split; [|reflexivity].
    intros _ l' [= <-]. apply Hover, Hmissing. reflexivity.
  - exfalso. destruct (proj1 Hpanic eq_refl) as (b & u & a & -> & Hu & _).
    rewrite Forall_forall in Hnamed.
    assert (Hin : u ∈ b ++ u :: a) by (apply elem_of_app; right; left).
    specialize (Hnamed u Hin). rewrite Hu in Hnamed. discriminate Hnamed.
Qed.

Lemma GetSelector_validated_witness :
  GetSelector (configOf (Some (devWith [selector (Some "web")])) None None)
    "db" <> Panic.
Proof.
  apply (proj1 (GetSelector_validated
                  (configOf (Some (devWith [selector (Some "web")])) None None)
                  (devWith [selector (Some "web")]) "db"
                  eq_refl eq_refl)).
Defined.

(** [validate] accepts a config without a [dev] section, on which
    [GetSelector] panics; and a name match before an unnamed selector
    hides the latter. *)
Example GetSelector_edges :
  validate (configOf None None None) = None
  /\ GetSelector (configOf None None None) "web" = Panic
  /\ GetSelector (configOf (Some (devWith [selector (Some "web");
                                           selector None])) None None) "web"
     = Ok (inl (selector (Some "web")))
  /\ GetSelector (configOf (Some (devWith [selector (Some "web");
                                           selector None])) None None) "db"
     = Panic.
Proof. repeat split; reflexivity. Qed.

(** ** [askQuestions] *)

Lemma askFrom_keeps (a : Asking) (vars : list ConfigVariable) :
  forall (idx : nat) (Vars : gmap string string) (k v : string),
    Vars !! k = Some v -> fst (askFrom idx a Vars vars) !! k = Some v.
Proof.
  induction vars as [|variable vars IH]; intros idx Vars k v Hk; simpl.
  - exact Hk.
  - destruct (Name variable) as [name|]; [|exact Hk].
    destruct (inEnv a name); [apply IH, Hk|].
    destruct (Vars !! name) eqn:Hname; [apply IH, Hk|].
    apply IH. rewrite lookup_insert_ne; [exact Hk|]. congruence.
Qed.

Lemma askFrom_unnamed (a : Asking) (named : list ConfigVariable)
    (unnamed : ConfigVariable) (rest : list ConfigVariable) :
  forall (idx : nat) (Vars : gmap string string),
    Forall (fun variable => Name variable <> None) named ->
    Name unnamed = None ->
    askFrom idx a Vars (named ++ unnamed :: rest)
    = (fst (askFrom idx a Vars named),
       Some ("Name required for variable with index "
             +:+ itoa (idx + length named))).
Proof.
  induction named as [|variable named IH]; intros idx Vars Hnamed Hunnamed;
    simpl.
  - rewrite Hunnamed, Nat.add_0_r. reflexivity.
  - inversion Hnamed as [|? ? Hvar Hrest]; subst.
    destruct (Name variable) as [name|]; [|contradiction].
    rewrite Nat.add_succ_r.
    destruct (inEnv a name); [apply (IH (S idx)); assumption|].
    destruct (Vars !! name); apply (IH (S idx)); assumption.
Qed.

(** X20. [askQuestions] never replaces an answer that is in the cache
    already. *)
Theorem askQuestions_keeps_answers
    (a : Asking) (Vars : gmap string string) (vars : list ConfigVariable)
    (k v : string) :
  Vars !! k = Some v ->
  fst (askQuestions a Vars vars) !! k = Some v.
Proof.
  unfold askQuestions. generalize 0%nat as idx. revert Vars k v.
  induction vars as [|variable vars IH]; intros Vars k v idx Hk; simpl.
  - exact Hk.
  - destruct (Name variable) as [name|]; [|exact Hk].
    destruct (inEnv a name); [apply IH, Hk|].
    destruct (Vars !! name) eqn:Hname; [apply IH, Hk|].
    apply IH. rewrite lookup_insert_ne; [exact Hk|]. congruence.
Qed.

Lemma askQuestions_keeps_answers_witness :
  fst (askQuestions asking {[ "replicas" := "3" ]}
         [var (Some "replicas"); var (Some "image")]) !! "replicas"
  = Some "3".
Proof.
  apply (askQuestions_keeps_answers asking {[ "replicas" := "3" ]}
           [var (Some "replicas"); var (Some "image")] "replicas" "3").
  reflexivity.
Defined.

(** X21. When [askQuestions] returns no error, every variable has a name
    that is set in the environment or has an answer in the cache. *)
Theorem askQuestions_answers_all
    (a : Asking) (Vars : gmap string string) (vars : list ConfigVariable) :
  snd (askQuestions a Vars vars) = None ->
  Forall (fun variable =>
            exists name, Name variable = Some name
              /\ (inEnv a name = true
                  \/ is_Some (fst (askQuestions a Vars vars) !! name)))
         vars.
Proof.
  unfold askQuestions. generalize 0%nat as idx. revert Vars.
  induction vars as [|variable vars IH]; intros Vars idx; simpl.
  - constructor.
  - destruct (Name variable) as [name|] eqn:Hname; [|discriminate].
    destruct (inEnv a name) eqn:Henv.
    + intros Hok. constructor; [eauto|apply IH, Hok].
    + destruct (Vars !! name) as [v|] eqn:Hv.
      * intros Hok. constructor; [|apply IH, Hok].
        exists name. split; [exact Hname|]. right.
        rewrite (askFrom_keeps a vars (S idx) Vars name v Hv). eauto.
      * intros Hok. constructor; [|apply IH, Hok].
        exists name. split; [exact Hname|]. right.
        rewrite (askFrom_keeps a vars (S idx) _ name (AskQuestion a variable)
                   (lookup_insert_eq _ _ _)).
        eauto.
Qed.

Lemma askQuestions_answers_all_witness :
  Forall (fun variable =>
            exists name, Name variable = Some name
              /\ (inEnv asking name = true
                  \/ is_Some (fst (askQuestions asking ∅
                                     [var (Some "token"); var (Some "image")])
                              !! name)))
         [var (Some "token"); var (Some "image")].
Proof.
  apply (askQuestions_answers_all asking ∅
           [var (Some "token"); var (Some "image")]).
  reflexivity.
Defined.

(** X22. Asking again changes nothing: run on the cache it has filled,
    [askQuestions] asks no question and returns the same cache and the same
    result. *)
Theorem askQuestions_idempotent
    (a : Asking) (Vars : gmap string string) (vars : list ConfigVariable) :
  askQuestions a (fst (askQuestions a Vars vars)) vars
  = askQuestions a Vars vars.
Proof.
  unfold askQuestions. generalize 0%nat as idx. revert Vars.
  induction vars as [|variable vars IH]; intros Vars idx; simpl.
  - reflexivity.
  - destruct (Name variable) as [name|] eqn:Hname; simpl; [|reflexivity].
    destruct (inEnv a name) eqn:Henv; [apply IH|].
    destruct (Vars !! name) as [v|] eqn:Hv.
    + rewrite (askFrom_keeps a vars (S idx) Vars name v Hv). apply IH.
    + rewrite (askFrom_keeps a vars (S idx) _ name (AskQuestion a variable)
                 (lookup_insert_eq _ _ _)).
      apply IH.
Qed.

(** X23. A variable without a name stops [askQuestions] with the index of
    the first such variable; the answers to the variables before it are in
    the cache all the same. *)
Theorem askQuestions_unnamed_variable
    (a : Asking) (Vars : gmap string string) (named : list ConfigVariable)
    (unnamed : ConfigVariable) (rest : list ConfigVariable) :
  Forall (fun variable => Name variable <> None) named ->
  Name unnamed = None ->
  askQuestions a Vars (named ++ unnamed :: rest)
  = (fst (askQuestions a Vars named),
     Some ("Name required for variable with index " +:+ itoa (length named))).
Proof.
  intros Hnamed Hunnamed.
  exact (askFrom_unnamed a named unnamed rest 0 Vars Hnamed Hunnamed).
Qed.

Lemma askQuestions_unnamed_variable_witness :
  askQuestions asking ∅ ([var (Some "image")] ++ var None
                           :: [var (Some "replicas")])
  = (fst (askQuestions asking ∅ [var (Some "image")]),
     Some ("Name required for variable with index "
           +:+ itoa (length [var (Some "image")]))).
Proof.
  apply (askQuestions_unnamed_variable asking ∅ [var (Some "image")]
           (var None) [var (Some "replicas")]).
  - repeat constructor. discriminate.
  - reflexivity.
Defined.

Example askQuestions_run :
  askQuestions asking {[ "replicas" := "3" ]}
    [var (Some "token"); var (Some "replicas"); var (Some "image");
     var None; var (Some "never asked")]
  = ({[ "replicas" := "3"; "image" := "answer for image" ]},
     Some "Name required for variable with index 3").
Proof. vm_compute. reflexivity. Qed.

(** ** [GetDefaultNamespace] *)

(** X24. [GetDefaultNamespace] returns the namespace of the config when
    there is one, without regard to the kube config; otherwise the error of
    loading the kube config if that fails, and if it loads, a namespace
    that is never empty: that of the chosen context, or "default". *)
Theorem GetDefaultNamespace_result
    (LoadRawConfig : RawConfig * option error) (config : option Config.t) :
  (forall namespace,
     configuredNamespace config = Some namespace ->
     GetDefaultNamespace LoadRawConfig config = (namespace, None))
  /\ (configuredNamespace config = None ->
      (forall err, snd LoadRawConfig = Some err ->
         GetDefaultNamespace LoadRawConfig config = ("", Some err))
      /\ (snd LoadRawConfig = None ->
          snd (GetDefaultNamespace LoadRawConfig config) = None
          /\ fst (GetDefaultNamespace LoadRawConfig config) <> "")).
Proof.
  unfold GetDefaultNamespace, configuredNamespace.
  destruct LoadRawConfig as [kubeConfig loadErr].
  destruct config as [config|];
    [destruct (Config.Cluster config) as [[[namespace|] kubeContext]|]|];
    simpl; split; try discriminate; try (intros ns [= <-]; reflexivity);
    intros _; (split; [intros err ->; reflexivity|]); intros ->;
    match goal with
    | |- context [Contexts kubeConfig !! ?c] =>
      destruct (Contexts kubeConfig !! c) as [context|]
    end;
    try (split; [reflexivity|discriminate]);
    destruct (String.eqb_spec (Namespace context) ""); simpl;
    (split; [reflexivity|]); try discriminate; assumption.
Qed.

Lemma GetDefaultNamespace_result_witness :
  GetDefaultNamespace (kubeConfig, Some "open ~/.kube/config: no such file")
    (Some (Config.mk None None None None
             (Some (Cluster.mk (Some "dev-team") None))))
  = ("dev-team", None).
Proof.
  apply (proj1 (GetDefaultNamespace_result
                  (kubeConfig, Some "open ~/.kube/config: no such file")
                  (Some (Config.mk None None None None
                           (Some (Cluster.mk (Some "dev-team") None)))))).
  reflexivity.
Defined.

(** The context of the config takes the place of the current one; a
    context without a namespace, or a missing context, gives "default". *)
Example GetDefaultNamespace_contexts :
  GetDefaultNamespace (kubeConfig, None)
    (Some (Config.mk None None None None
             (Some (Cluster.mk None (Some "staging")))))
  = ("team-a", None)
  /\ GetDefaultNamespace (kubeConfig, None) None = ("default", None)
  /\ GetDefaultNamespace (kubeConfig, None)
       (Some (Config.mk None None None None
                (Some (Cluster.mk None (Some "gone")))))
     = ("default", None).
Proof. repeat split; vm_compute; reflexivity. Qed.

End ConfigutilSpec.

(** * Properties of [GetPaths] *)

Module DevPathsSpec.
Import latest Configutil DevPaths PathsFixtures.

Example GetPaths_project :
  GetPaths chartOnDisk project
  = Ok ["chart/**"; "kube/api.yaml"; "kube/svc.yaml"; "./Dockerfile";
        "worker/Dockerfile"; "config/**"; "Makefile"].
Proof. vm_compute. reflexivity. Qed.

Lemma explicit_appended (explicit : list (option string)) :
  forall paths out,
    rangeAppend (fun path paths =>
                   bindRes (deref path) (fun p => Ok (paths ++ [p])))
      explicit paths = Ok out ->
    exists added, out = paths ++ added /\ explicit = map Some added.
Proof.
  induction explicit as [|path explicit IH]; intros paths out; simpl.
  - intros [= <-]. exists []. rewrite app_nil_r. auto.
  - destruct path as [p|]; simpl; [|discriminate].
    intros H. destruct (IH _ _ H) as (added & -> & ->).
    exists (p :: added). rewrite <- app_assoc. auto.
Qed.

(** X25. When [GetPaths] returns, the paths of [autoReload.paths] are the
    end of its result, all of them and in their order; so none of them is
    nil. *)
Theorem GetPaths_explicit_paths_last
    (Stat : os.StatFn) (config : Config.t) (dev : DevConfig.t)
    (autoReload : AutoReloadConfig.t) (explicit : list (option string))
    (paths : list string) :
  Config.Dev config = Some dev ->
  DevConfig.AutoReload dev = Some autoReload ->
  AutoReloadConfig.Paths autoReload = Some explicit ->
  GetPaths Stat config = Ok paths ->
  exists before added,
    paths = before ++ added /\ explicit = map Some added.
Proof.
  intros Hdev Hauto Hpaths. unfold GetPaths. rewrite Hdev, Hauto, Hpaths.
  match goal with
  | |- bindRes ?first _ = _ -> _ => destruct first as [paths1|]
  end; simpl; [|discriminate].
  match goal with
  | |- bindRes ?second _ = _ -> _ => destruct second as [paths2|]
  end; simpl; [|discriminate].
  intros H. destruct (explicit_appended _ _ _ H) as (added & -> & ->).
  eauto.
Qed.

Lemma GetPaths_explicit_paths_last_witness :
  exists before added,
    ["chart/**"; "kube/api.yaml"; "kube/svc.yaml"; "./Dockerfile";
     "worker/Dockerfile"; "config/**"; "Makefile"] = before ++ added
    /\ map Some ["config/**"; "Makefile"] = map Some added.
Proof.
  apply (GetPaths_explicit_paths_last chartOnDisk project
           (autoReload ["db"; "api"; "typo"] ["web"; "worker"]
              ["config/**"; "Makefile"])
           (AutoReloadConfig.mk (Some (map Some ["db"; "api"; "typo"]))
              (Some (map Some ["web"; "worker"]))
              (Some (map Some ["config/**"; "Makefile"])))
           (map Some ["config/**"; "Makefile"])); reflexivity.
Defined.

Lemma rangeAppend_ok {A : Type} (body : A -> list string -> Res (list string))
    (l : list A) :
  Forall (fun x => forall paths, exists out, body x paths = Ok out) l ->
  forall paths, exists out, rangeAppend body l paths = Ok out.
Proof.
  induction l as [|x l IH]; intros Hl paths; simpl.
  - eauto.
  - inversion Hl as [|? ? Hx Hrest]; subst.
    destruct (Hx paths) as (out & ->). apply IH, Hrest.
Qed.

Lemma derefs_ok (l : list (option string)) :
  Forall (fun e => e <> None) l ->
  forall paths, exists out,
    rangeAppend (fun path paths =>
                   bindRes (deref path) (fun p => Ok (paths ++ [p])))
      l paths = Ok out.
Proof.
  intros Hl. apply rangeAppend_ok.
  eapply Forall_impl; [exact Hl|]. intros [p|] Hp paths; simpl; eauto.
  contradiction.
Qed.

Lemma appendManifests_ok (d : DeploymentConfig.t) (paths : list string) :
  (forall kubectl, DeploymentConfig.Kubectl d = Some kubectl ->
     noNil (KubectlConfig.Manifests kubectl)) ->
  exists out, appendManifests d paths = Ok out.
Proof.
  intros Hd. unfold appendManifests.
  destruct (DeploymentConfig.Kubectl d) as [kubectl|]; [|eauto].
  specialize (Hd kubectl eq_refl).
  destruct (KubectlConfig.Manifests kubectl) as [manifests|]; [|eauto].
  apply derefs_ok, Hd. reflexivity.
Qed.

Lemma lastByte_none (s : string) : lastByte s = None -> s = "".
Proof.
  induction s as [|c s IH]; [reflexivity|]. simpl.
  destruct s; [discriminate|]. intros H. specialize (IH H). discriminate IH.
Qed.

Lemma deploymentPaths_ok (Stat : os.StatFn) (name : string)
    (d : DeploymentConfig.t) (paths : list string) :
  okDeployment d = true ->
  (forall kubectl, DeploymentConfig.Kubectl d = Some kubectl ->
     noNil (KubectlConfig.Manifests kubectl)) ->
  snd (Stat "") <> None ->
  exists out, deploymentPaths Stat (Some name) d paths = Ok out.
Proof.
  intros Hok Hmanifests Hempty. revert Hok.
  unfold deploymentPaths, okDeployment, helmWithoutChartName. simpl.
  destruct (DeploymentConfig.Name d) as [confName|]; [|discriminate].
  simpl. destruct (String.eqb name confName); [|eauto].
  destruct (DeploymentConfig.Helm d) as [helm|];
    [|intros _; apply appendManifests_ok, Hmanifests].
  destruct (HelmConfig.Chart helm) as [chart|]; [|discriminate].
  simpl.
  destruct (ChartConfig.Name chart) as [chartName|]; [|discriminate].
  intros _.
  destruct (isNil (snd (Stat chartName))) eqn:Hstat; [|eauto].
  unfold chartPattern.
  destruct (lastByte chartName) as [c|] eqn:Hlast; simpl; [eauto|].
  apply lastByte_none in Hlast. subst chartName.
  destruct (snd (Stat "")); [discriminate Hstat|contradiction].
Qed.

Lemma imagePaths_ok (name : string) (entry : string * ImageConfig.t)
    (paths : list string) :
  exists out, imagePaths (Some name) entry paths = Ok out.
Proof.
  unfold imagePaths. destruct entry as [confName conf]. simpl.
  destruct (String.eqb name confName); eauto.
Qed.

(** X26. On a config that [validate] accepts, whose lists of names, paths
    and manifests hold no nil entry, [GetPaths] dereferences no nil pointer
    and indexes no empty chart name, given that the stat of the empty path
    fails: it returns its list. *)
Theorem GetPaths_validated (Stat : os.StatFn) (config : Config.t) :
  validate config = None ->
  noNilEntries config ->
  snd (Stat "") <> None ->
  exists paths, GetPaths Stat config = Ok paths.
Proof.
  intros Hvalid [Hauto Hmanifests] Hempty.
  apply ConfigutilSpec.validate_none in Hvalid.
  destruct Hvalid as (_ & _ & _ & Hdeployments).
  unfold GetPaths.
  destruct (Config.Dev config) as [dev|]; [|eauto].
  destruct (DevConfig.AutoReload dev) as [autoReload|] eqn:Hreload; [|eauto].
  destruct (Hauto dev autoReload eq_refl Hreload) as (Hnames & Himages & Hpaths).
  assert (Hfirst : exists paths1,
            match AutoReloadConfig.Deployments autoReload,
                  Config.Deployments config with
            | Some names, Some deployments =>
              rangeAppend
                (fun deployName =>
                   rangeAppend (deploymentPaths Stat deployName) deployments)
                names []
            | _, _ => Ok []
            end = Ok paths1).
  { destruct (AutoReloadConfig.Deployments autoReload) as [names|]; [|eauto].
    destruct (Config.Deployments config) as [deployments|]; [|eauto].
    specialize (Hnames names eq_refl).
    specialize (Hdeployments deployments eq_refl).
    specialize (Hmanifests deployments eq_refl).
    apply rangeAppend_ok.
    eapply Forall_impl; [exact Hnames|]. intros [name|] Hname paths;
      [|contradiction].
    apply rangeAppend_ok.
    rewrite Forall_forall in Hdeployments, Hmanifests |- *.
    intros d Hd paths'.
    apply deploymentPaths_ok;
      [apply Hdeployments, Hd|apply Hmanifests, Hd|exact Hempty]. }
  destruct Hfirst as (paths1 & ->). simpl.
  assert (Hsecond : exists paths2,
            match AutoReloadConfig.Images autoReload,
                  Config.Images config with
            | Some names, Some images =>
              rangeAppend
                (fun imageName => rangeAppend (imagePaths imageName) images)
                names paths1
            | _, _ => Ok paths1
            end = Ok paths2).
  { destruct (AutoReloadConfig.Images autoReload) as [names|]; [|eauto].
    destruct (Config.Images config) as [images|]; [|eauto].
    specialize (Himages names eq_refl).
    apply rangeAppend_ok.
    eapply Forall_impl; [exact Himages|]. intros [name|] Hname paths;
      [|contradiction].
    apply rangeAppend_ok. rewrite Forall_forall.
    intros entry _ paths'. apply imagePaths_ok. }
  destruct Hsecond as (paths2 & ->). simpl.
  destruct (AutoReloadConfig.Paths autoReload) as [explicit|]; [|eauto].
  apply derefs_ok, Hpaths. reflexivity.
Qed.

Lemma project_noNilEntries : noNilEntries project.
Proof.
  split.
  - intros dev reload [= <-] [= <-].
    repeat split; intros l [= <-]; repeat constructor; discriminate.
  - intros deployments [= <-]. repeat constructor.
    + intros kubectl Hk. discriminate Hk.
    + intros kubectl [= <-] l [= <-]. repeat constructor; discriminate.
Defined.

Lemma GetPaths_validated_witness :
  exists paths, GetPaths chartOnDisk project = Ok paths.
Proof.
  apply (GetPaths_validated chartOnDisk project).
  - reflexivity.
  - exact project_noNilEntries.
  - discriminate.
Defined.

(** Without [validate]: a helm deployment without a chart, and a chart
    with an empty name that the stat accepts, make [GetPaths] panic. *)
Example GetPaths_panics :
  GetPaths chartOnDisk
    (Config.mk (Some (autoReload ["db"] [] [])) None None
       (Some [DeploymentConfig.mk (Some "db") (Some (HelmConfig.mk None))
                None None]) None) = Panic
  /\ GetPaths (fun _ => (None, None))
       (Config.mk (Some (autoReload ["db"] [] [])) None None
          (Some [DeploymentConfig.mk (Some "db")
                   (Some (HelmConfig.mk (Some (ChartConfig.mk (Some ""))))
                   ) None None]) None) = Panic.
Proof. split; reflexivity. Qed.

End DevPathsSpec.

(** * Properties of [GetConfigFromPath] and [loadConfig] *)

Module ConfigLoadSpec.
Import latest Configutil ConfigFixtures ConfigLoad.

(** X27. [GetConfigFromPath] returns a config only without an error, and
    then it is the config that was loaded and one that [validate] accepts;
    with an error it returns no config. *)
Theorem GetConfigFromPath_valid
    (loaded : option Config.t * option error) (basePath : string) :
  (forall config,
     GetConfigFromPath loaded basePath = Ok (Some config, None)
     <-> loaded = (Some config, None) /\ wellFormed config)
  /\ (forall config err,
        GetConfigFromPath loaded basePath = Ok (config, Some err) ->
        config = None).
Proof.
  unfold GetConfigFromPath. destruct loaded as [[loadedConfig|] [err|]].
  - split.
    + intros config. split; [discriminate|]. intros [[=] _].
    + intros config e [= <- _]. reflexivity.
  - pose proof (ConfigutilSpec.validate_none loadedConfig) as Hvalid.
    destruct (validate loadedConfig) as [e|]; split.
    + intros config. split; [discriminate|]. intros [[= <-] Hwf].
      apply Hvalid in Hwf. discriminate Hwf.
    + intros config e' [= <- _]. reflexivity.
    + intros config. split.
      * intros [= <-]. split; [reflexivity|]. apply Hvalid. reflexivity.
      * intros [[= <-] _]. reflexivity.
    + intros config e' H. discriminate H.
  - split.
    + intros config. split; [discriminate|]. intros [[=] _].
    + intros config e [= <- _]. reflexivity.
  - split.
    + intros config. split; [discriminate|]. intros [[=] _].
    + intros config e H. discriminate H.
Qed.

Lemma GetConfigFromPath_valid_witness :
  GetConfigFromPath (Some (configOf None None None), None) "."
  = Ok (Some (configOf None None None), None).
Proof.
  apply (proj2 (proj1 (GetConfigFromPath_valid
                         (Some (configOf None None None), None) ".")
                      (configOf None None None))).
  split; [reflexivity|]. apply ConfigutilSpec.validate_none. reflexivity.
Defined.

(** X28. When [loadConfig] is given a namespace and returns, the config it
    returns names that namespace, so that [GetDefaultNamespace] answers it
    whatever the kube config is; it keeps the kube context of the loaded
    config and is still a config that [validate] accepts. *)
Theorem loadConfig_namespace
    (cmd : Dev.DevCmd) (loaded : option Config.t * option error)
    (saved : option error) (result : option Config.t) :
  Dev.Namespace cmd <> "" ->
  loadConfig cmd loaded saved = Done result ->
  exists config cluster,
    loaded = (Some config, None)
    /\ Config.Cluster config = Some cluster
    /\ result = Some (Config.mk (Config.Dev config) (Config.Hooks config)
                        (Config.Images config) (Config.Deployments config)
                        (Some (Cluster.mk (Some (Dev.Namespace cmd))
                                 (Cluster.KubeContext cluster))))
    /\ validate config = None
    /\ forall LoadRawConfig,
         GetDefaultNamespace LoadRawConfig result
         = (Dev.Namespace cmd, None).
Proof.
  intros Hns. unfold loadConfig, GetConfigFromPath.
  destruct loaded as [[config|] [err|]]; try discriminate.
  destruct (validate config) as [e|] eqn:Hvalid; [discriminate|].
  destruct (String.eqb_spec (Dev.Namespace cmd) "") as [Heq|_];
    [contradiction|]. simpl.
  unfold setNamespace.
  destruct (Config.Cluster config) as [cluster|] eqn:Hcluster;
    [|discriminate].
  destruct saved as [e|]; [discriminate|]. intros [= <-].
  exists config, cluster. repeat split; try reflexivity; assumption.
Qed.

Lemma loadConfig_namespace_witness :
  exists config cluster,
    (Some (Config.mk None None None None
             (Some (Cluster.mk None (Some "minikube")))), @None error)
    = (Some config, None)
    /\ Config.Cluster config = Some cluster
    /\ Some (Config.mk None None None None
               (Some (Cluster.mk (Some "staging") (Some "minikube"))))
       = Some (Config.mk (Config.Dev config) (Config.Hooks config)
                 (Config.Images config) (Config.Deployments config)
                 (Some (Cluster.mk (Some (Dev.Namespace DevFixtures.noTerminal))
                          (Cluster.KubeContext cluster))))
    /\ validate config = None
    /\ forall LoadRawConfig,
         GetDefaultNamespace LoadRawConfig
           (Some (Config.mk None None None None
                    (Some (Cluster.mk (Some "staging") (Some "minikube")))))
         = (Dev.Namespace DevFixtures.noTerminal, None).
Proof.
  apply (loadConfig_namespace DevFixtures.noTerminal
           (Some (Config.mk None None None None
                    (Some (Cluster.mk None (Some "minikube")))), None)
           None
           (Some (Config.mk None None None None
                    (Some (Cluster.mk (Some "staging") (Some "minikube")))))).
  - discriminate.
  - reflexivity.
Defined.

(** X29. Given a namespace, [loadConfig] dereferences nil when the loaded
    config has no cluster section, valid though the config is; without a
    namespace it returns the loaded config as it is. *)
Theorem loadConfig_without_cluster
    (cmd : Dev.DevCmd) (config : Config.t) (saved : option error) :
  validate config = None ->
  (Dev.Namespace cmd <> "" -> Config.Cluster config = None ->
   loadConfig cmd (Some config, None) saved = Panicked)
  /\ (Dev.Namespace cmd = "" -> saved = None ->
      loadConfig cmd (Some config, None) saved = Done (Some config)).
Proof.
  intros Hvalid. unfold loadConfig, GetConfigFromPath. rewrite Hvalid.
  split.
  - intros Hns Hcluster.
    destruct (String.eqb_spec (Dev.Namespace cmd) "") as [Heq|_];
      [contradiction|]. simpl.
    unfold setNamespace. rewrite Hcluster. reflexivity.
  - intros -> ->. reflexivity.
Qed.

Lemma loadConfig_without_cluster_witness :
  loadConfig DevFixtures.noTerminal (Some (configOf None None None), None)
    None = Panicked.
Proof.
  apply (proj1 (loadConfig_without_cluster DevFixtures.noTerminal
                  (configOf None None None) None eq_refl)).
  - discriminate.
  - reflexivity.
Defined.

End ConfigLoadSpec.
